(** * libnss-sqlite3, groups.c: group entry retrieval

    A shallow embedding of [groups.c] and the properties of its marshaling,
    enumeration cursor and dynamic array growth.

    Conventions of the embedding (LP64, as the 8-byte pointer width of the
    specification's scenarios): [int] is 32 bits, [long] and [size_t] are
    64 bits, a pointer is 8 bytes stored little-endian.  C integers are [Z]
    with the conversions written out ([to_int], [to_long], [to_size_t]).
    The SQLite library, the query provider and the C allocator are the
    environment: they are modelled by a scripted [store] and by a [world]
    that records every call that acquires or releases a handle and the
    depth of the recursive mutex; what SQLite makes of these calls (a
    connection with an unfinalized statement refuses to close) is
    [replay].  Of the C heap only the caller's buffer and group vector are
    modelled; the query texts and the temporary table of member names are
    values, and their [malloc] and [free] are left out.

    The file has the embedding first, then the definitions the properties
    are stated with and a small store to run the code on, then the
    proofs. *)

From Stdlib Require Import String.

From Stdlib Require Import ZArith List Lia Bool.

From coqutil Require Import Byte Word.LittleEndianList.

Import ListNotations.

Local Open Scope Z_scope.

(** ** C integer types *)

Definition INT_MAX : Z := 2147483647.

Definition SIZE_MAX : Z := 18446744073709551615.

(** Conversion of a value to [int] (two's complement, as gcc defines the
    implementation-defined narrowing). *)
Definition to_int (z : Z) : Z := (z + 2147483648) mod 4294967296 - 2147483648.

(** Conversion of a value to [size_t]. *)
Definition to_size_t (z : Z) : Z := z mod 18446744073709551616.

(** Conversion of an [int] to [gid_t] (unsigned 32 bits). *)
Definition to_gid_t (z : Z) : Z := z mod 4294967296.

Definition sizeof_ptr : Z := 8.

(** ** Status codes of the environment's headers *)

(** [enum nss_status] of <nss.h>. *)
Definition NSS_STATUS_TRYAGAIN : Z := -2.

Definition NSS_STATUS_UNAVAIL : Z := -1.

Definition NSS_STATUS_NOTFOUND : Z := 0.

Definition NSS_STATUS_SUCCESS : Z := 1.

(** [TRUE] is defined by nss-sqlite.h, which is not among the sources; it
    is the C truth value 1, the value of [NSS_STATUS_SUCCESS]. *)
Definition TRUE : Z := 1.

(** <errno.h> *)
Definition ERANGE : Z := 34.

(** <sqlite3.h> *)
Definition SQLITE_OK : Z := 0.

Definition SQLITE_MISUSE : Z := 21.

Definition SQLITE_ROW : Z := 100.

Definition SQLITE_DONE : Z := 101.

(** ** C strings *)

(** The bytes of a C string: what [strlen], [strcpy] and [strdup] see of a
    text, namely its bytes up to the first NUL. *)
Fixpoint cstr (s : list byte) : list byte :=
  match s with
  | [] => []
  | b :: t => if Byte.eqb b Byte.x00 then [] else b :: cstr t
  end.

Definition strlen (s : list byte) : Z := Z.of_nat (length (cstr s)).

Definition strdup (s : list byte) : list byte := cstr s.

(** ** The row source (SQLite) and the query provider *)

Inductive value :=
| VInt (z : Z)
| VText (s : list byte).

Definition row := list value.

(** What one call of [sqlite3_step] yields. *)
Inductive outcome :=
| Row (r : row)
| Done
| Fail (rc : Z).

(** The scripted store: the result code of every fallible call and the
    outcomes a statement yields once its parameters are bound. *)
Record store := {
  open_rc : Z;
  query_text : string -> option string;
  prepare_rc : string -> Z;
  bind_rc : string -> Z -> Z;
  results : string -> list value -> list outcome
}.

Record stmt := {
  st_id : nat;
  st_sql : string;
  st_params : list value;
  st_pending : list outcome;
  st_row : row
}.

(** The calls of [sqlite3_open], [sqlite3_close], [sqlite3_prepare] (on
    the connection [db], when it succeeds) and [sqlite3_finalize], with
    the handles they are made on. *)
Inductive event :=
| EvOpen (db : nat)
| EvClose (db : nat)
| EvPrepare (db : option nat) (st : nat)
| EvFinalize (st : nat).

Definition event_eq_dec (a b : event) : {a = b} + {a <> b}.
Proof. repeat decide equality. Defined.

(** The part of the process state outside the program's own variables. *)
Record world := {
  events : list event;
  next_handle : nat;
  lock_depth : nat
}.

Definition M (A : Type) : Type := world -> A * world.

Definition ret {A} (a : A) : M A := fun w => (a, w).

Definition bind {A B} (c : M A) (k : A -> M B) : M B :=
  fun w => let (a, w') := c w in k a w'.

Notation "x <- c ;; k" := (bind c (fun x => k))
  (at level 61, c at next level, right associativity).

Notation "' p <- c ;; k" := (bind c (fun x => let 'p := x in k))
  (at level 61, p pattern, c at next level, right associativity).

Notation "c ;;; k" := (bind c (fun _ => k))
  (at level 61, right associativity).

Definition log (e : event) : M unit :=
  fun w => (tt, {| events := events w ++ [e];
                   next_handle := next_handle w;
                   lock_depth := lock_depth w |}).

Definition fresh : M nat :=
  fun w => (next_handle w, {| events := events w;
                              next_handle := S (next_handle w);
                              lock_depth := lock_depth w |}).

(** [sqlite3_open]: a connection handle is allocated whether or not the
    call succeeds, and has to be closed in both cases. *)
Definition sqlite3_open (s : store) : M (Z * option nat) :=
  h <- fresh ;;
  log (EvOpen h) ;;;
  ret (open_rc s, Some h).

(** [sqlite3_close]: a no-op on NULL.  The call is recorded; its result,
    which says whether the connection was released (see [sqlite_call]),
    is looked at nowhere in groups.c. *)
Definition sqlite3_close (db : option nat) : M unit :=
  match db with
  | Some h => log (EvClose h)
  | None => ret tt
  end.

(** [get_query] of utils.h, the query provider: the text of a named query. *)
Definition get_query (s : store) (db : option nat) (name : string) : option string :=
  query_text s name.

(** [sqlite3_prepare]: on failure the statement pointer is set to NULL. *)
Definition sqlite3_prepare (s : store) (db : option nat) (sql : string)
  : M (Z * option stmt) :=
  if prepare_rc s sql =? SQLITE_OK then
    h <- fresh ;;
    log (EvPrepare db h) ;;;
    ret (SQLITE_OK, Some {| st_id := h; st_sql := sql; st_params := [];
                            st_pending := results s sql []; st_row := [] |})
  else ret (prepare_rc s sql, None).

(** [sqlite3_finalize]: a no-op on NULL. *)
Definition sqlite3_finalize (st : option stmt) : M unit :=
  match st with
  | Some p => log (EvFinalize (st_id p))
  | None => ret tt
  end.

Definition sqlite3_bind (s : store) (st : option stmt) (idx : Z) (v : value)
  : Z * option stmt :=
  match st with
  | Some p =>
      let ps := st_params p ++ [v] in
      (bind_rc s (st_sql p) idx,
       Some {| st_id := st_id p; st_sql := st_sql p; st_params := ps;
               st_pending := results s (st_sql p) ps; st_row := st_row p |})
  | None => (SQLITE_MISUSE, None)
  end.

Definition sqlite3_bind_text := sqlite3_bind.

Definition sqlite3_bind_int := sqlite3_bind.

Definition rc_of (o : outcome) : Z :=
  match o with
  | Row _ => SQLITE_ROW
  | Done => SQLITE_DONE
  | Fail rc => rc
  end.

Definition advance (p : stmt) (o : outcome) (rest : list outcome) : stmt :=
  {| st_id := st_id p; st_sql := st_sql p; st_params := st_params p;
     st_pending := rest;
     st_row := match o with Row r => r | _ => [] end |}.

(** [sqlite3_step]: the next outcome of the statement; a statement with
    nothing left reports [SQLITE_DONE], a NULL statement [SQLITE_MISUSE]. *)
Definition sqlite3_step (st : option stmt) : Z * option stmt :=
  match st with
  | Some p =>
      match st_pending p with
      | o :: rest => (rc_of o, Some (advance p o rest))
      | [] => (SQLITE_DONE, Some (advance p Done []))
      end
  | None => (SQLITE_MISUSE, None)
  end.

(** The columns of the current row.  A column is read as what it holds,
    an integer by [sqlite3_column_int] and a text by
    [sqlite3_column_text]; the conversions SQLite makes between the two
    and SQL NULL, for which [sqlite3_column_text] returns a NULL pointer,
    are left out: the properties below are about rows that hold integers
    where the code reads integers and texts where it reads texts, or
    about the calls alone. *)
Definition current_row (st : option stmt) : row :=
  match st with
  | Some p => st_row p
  | None => []
  end.

Definition sqlite3_column_int (st : option stmt) (i : nat) : Z :=
  match nth_error (current_row st) i with
  | Some (VInt z) => to_int z
  | _ => 0
  end.

Definition sqlite3_column_text (st : option stmt) (i : nat) : list byte :=
  match nth_error (current_row st) i with
  | Some (VText t) => t
  | _ => []
  end.

(** ** What SQLite makes of the calls *)

(** The connections that are open and the statements that are prepared
    and not finalized, each with the connection it was prepared on; the
    latest first. *)
Record handles := {
  connections : list nat;
  statements : list (nat * option nat)
}.

(** The list without the first of its elements that satisfies [f], if
    there is one. *)
Fixpoint take_out {A : Type} (f : A -> bool) (l : list A) : option (list A) :=
  match l with
  | [] => None
  | a :: t => if f a then Some t else option_map (cons a) (take_out f t)
  end.

Definition owned_by (h : nat) (p : nat * option nat) : bool :=
  match snd p with
  | Some d => Nat.eqb d h
  | None => false
  end.

(** The connection [h] has a statement that is not finalized. *)
Definition busy (h : nat) (hs : handles) : bool :=
  existsb (owned_by h) (statements hs).

(** One call.  [sqlite3_close] releases a connection that is open and has
    no statement left; while the connection has an unfinalized statement
    the call returns [SQLITE_BUSY] and the connection stays open.
    [sqlite3_finalize] releases a statement that is prepared.  A call on
    a handle that is not there (a second release, a statement prepared on
    a closed connection) is undefined: there is no state after it. *)
Definition sqlite_call (hs : handles) (e : event) : option handles :=
  match e with
  | EvOpen h =>
      Some {| connections := h :: connections hs; statements := statements hs |}
  | EvClose h =>
      match take_out (Nat.eqb h) (connections hs) with
      | Some cs =>
          if busy h hs then Some hs
          else Some {| connections := cs; statements := statements hs |}
      | None => None
      end
  | EvPrepare (Some h) st =>
      if existsb (Nat.eqb h) (connections hs) then
        Some {| connections := connections hs;
                statements := (st, Some h) :: statements hs |}
      else None
  | EvPrepare None _ => None
  | EvFinalize st =>
      match take_out (fun p => Nat.eqb (fst p) st) (statements hs) with
      | Some ss => Some {| connections := connections hs; statements := ss |}
      | None => None
      end
  end.

Fixpoint replay (hs : handles) (tr : list event) : option handles :=
  match tr with
  | [] => Some hs
  | e :: rest =>
      match sqlite_call hs e with
      | Some hs' => replay hs' rest
      | None => None
      end
  end.

(** ** The caller's buffer *)

(** One store into the caller's buffer: the bytes [w_data] at the offset
    [w_off] from the start of the buffer. *)
Record write := { w_off : Z; w_data : list byte }.

Definition in_bounds (buflen : Z) (w : write) : Prop :=
  0 <= w_off w /\ w_off w + Z.of_nat (length (w_data w)) <= buflen.

(** [strcpy (buffer + off, s)] *)
Definition strcpy (off : Z) (s : list byte) : write :=
  {| w_off := off; w_data := cstr s ++ [Byte.x00] |}.

(** [ptr_area[i] = p], with [ptr_area = (char** ) buffer] *)
Definition store_ptr (i : Z) (p : Z) : write :=
  {| w_off := i * sizeof_ptr; w_data := le_split 8 p |}.

Definition NULL : Z := 0.

(** What a marshaling routine hands back: its status, the caller's [errno]
    after the call and the stores it made into the caller's buffer. *)
Record filled := { f_status : Z; f_errno : Z; f_writes : list write }.

(** ** get_users: the membership list builder *)

(** The gathering loop (lines 457-467).  The temporary table [members]
    is a list: [malloc], [realloc] and [strdup] are taken to succeed, and
    [msize] only sizes that table.  Every pass consumes one pending
    outcome of the statement, so the fuel [get_users] gives it, one more
    than the number of pending outcomes, is never exhausted. *)
Fixpoint gather (fuel : nat) (pSt : option stmt) (members : list (list byte))
  : list (list byte) * option stmt :=
  match fuel with
  | O => (members, pSt)
  | S fuel' =>
      let member := sqlite3_column_text pSt 0 in
      let members := members ++ [strdup member] in
      let (res, pSt) := sqlite3_step pSt in
      if res =? SQLITE_ROW then gather fuel' pSt members else (members, pSt)
  end.

(** The packing loop (lines 490-501): [i] is the index of the next slot of
    the pointer area, [next_member] the offset of the next string and
    [buflen] the capacity that is left; [base] is the address of
    [buffer]. *)
Fixpoint pack (base : Z) (i next_member buflen : Z) (errno : Z)
  (members : list (list byte)) : filled :=
  match members with
  | [] =>
      {| f_status := TRUE; f_errno := errno;
         f_writes := [store_ptr i NULL] |}
  | m :: rest =>
      let l := to_int (to_size_t (strlen m + 1)) in
      if buflen <? to_size_t l then
        {| f_status := NSS_STATUS_TRYAGAIN; f_errno := ERANGE; f_writes := [] |}
      else
        let r := pack base (i + 1) (next_member + l) (to_size_t (buflen - l))
                   errno rest in
        {| f_status := f_status r; f_errno := f_errno r;
           f_writes := strcpy next_member m
                         :: store_ptr i (base + next_member) :: f_writes r |}
  end.

(** Lines 480-504. *)
Definition pack_members (base buflen errno : Z) (members : list (list byte))
  : filled :=
  let mcount := Z.of_nat (length members) in
  let ptr_area_size := to_int (to_size_t (to_size_t (mcount + 1) * sizeof_ptr)) in
  if buflen <? to_size_t ptr_area_size then
    {| f_status := NSS_STATUS_TRYAGAIN; f_errno := ERANGE; f_writes := [] |}
  else
    pack base 0 ptr_area_size (to_size_t (buflen - ptr_area_size)) errno members.

Definition pending_of (st : option stmt) : list outcome :=
  match st with
  | Some p => st_pending p
  | None => []
  end.

Definition get_users (s : store) (pDb : option nat) (gid : Z)
  (buffer : Z) (buflen : Z) (errno : Z) : M filled :=
  match get_query s pDb "get_users" with
  | None =>
      sqlite3_close pDb ;;;
      ret {| f_status := NSS_STATUS_UNAVAIL; f_errno := errno; f_writes := [] |}
  | Some sql =>
      '(rc, pSt) <- sqlite3_prepare s pDb sql ;;
      if negb (rc =? SQLITE_OK) then
        sqlite3_finalize pSt ;;;
        ret {| f_status := NSS_STATUS_UNAVAIL; f_errno := errno; f_writes := [] |}
      else
        let (rc, pSt) := sqlite3_bind_int s pSt 1 (VInt gid) in
        if negb (rc =? SQLITE_OK) then
          sqlite3_finalize pSt ;;;
          ret {| f_status := NSS_STATUS_UNAVAIL; f_errno := errno; f_writes := [] |}
        else
          let (res, pSt) := sqlite3_step pSt in
          if negb (res =? SQLITE_ROW) then
            sqlite3_finalize pSt ;;;
            if res =? SQLITE_DONE then
              if buflen <? sizeof_ptr then
                ret {| f_status := NSS_STATUS_TRYAGAIN; f_errno := ERANGE;
                       f_writes := [] |}
              else
                ret {| f_status := NSS_STATUS_SUCCESS; f_errno := errno;
                       f_writes := [store_ptr 0 NULL] |}
            else
              ret {| f_status := NSS_STATUS_UNAVAIL; f_errno := errno;
                     f_writes := [] |}
          else
            let (members, pSt) := gather (S (length (pending_of pSt))) pSt [] in
            sqlite3_finalize pSt ;;;
            ret (pack_members buffer buflen errno members)
  end.

(** ** res2nss_status *)

(** Modelled from the spec: [res2nss_status] of utils.c is not among the
    sources.  The callers in groups.c hand it the result of
    [sqlite3_step] together with the connection and the statement, and
    release neither of them themselves when it reports anything but
    success.  The specification has a row mapped and marshaled, zero rows
    answered with NotFound, a failing step answered with Unavailable, and
    the statement and the connection released on every exit path; so a
    row gives SUCCESS and leaves the handles alone, and every other result
    finalizes the statement, closes the connection and gives NOTFOUND for
    [SQLITE_DONE], UNAVAIL otherwise. *)
Definition res2nss_status (res : Z) (pDb : option nat) (pSt : option stmt) : M Z :=
  if res =? SQLITE_ROW then ret NSS_STATUS_SUCCESS
  else
    sqlite3_finalize pSt ;;;
    sqlite3_close pDb ;;;
    ret (if res =? SQLITE_DONE then NSS_STATUS_NOTFOUND else NSS_STATUS_UNAVAIL).

(** ** _nss_sqlite_initgroups_dyn: the growing array of group ids *)

Definition LONG_MAX : Z := 9223372036854775807.

(** Conversion of a value to [long]. *)
Definition to_long (z : Z) : Z :=
  (z + 9223372036854775808) mod 18446744073709551616 - 9223372036854775808.

Definition sizeof_gid : Z := 4.

(** The caller's vector: [*start], [*size] and the block [*groupsp]. *)
Record groups := { start : Z; size : Z; groupsp : list Z }.

(** [(limit < ( *size * 2)) ? limit : ( *size * 2)] and its guards, lines
    363-377: the new [*size], or nothing when the limit is reached. *)
Definition grow (limit size : Z) : option Z :=
  if 0 <? limit then
    if size <? limit then
      Some (if limit <? to_long (size * 2) then limit else to_long (size * 2))
    else None
  else Some (to_long (size * 2)).

(** [t[i] = v] on a block that has the cell [i]. *)
Definition store_at (t : list Z) (i : nat) (v : Z) : list Z :=
  firstn i t ++ v :: skipn (S i) t.

Inductive appended :=
| Appended (g : groups)
| LimitReached
| Undefined.

Inductive collected :=
| Exhausted (g : groups) (pSt : option stmt)
| Limit (g : groups) (pSt : option stmt)
| Undef.

Section InitGroups.

(** The contents of the cells the allocator adds to a block are not
    determined by the program. *)
Variable junk : nat -> Z.

(** [realloc (t, nbytes)], taken to succeed: a block of [nbytes / 4] cells
    that keeps the cells of [t] it has room for. *)
Definition realloc (t : list Z) (nbytes : Z) : list Z :=
  let n := Z.to_nat (nbytes / sizeof_gid) in
  firstn n t ++ map junk (seq (length t) (n - length t)).

(** Lines 362-381, for the group id [gid] of the current row.  A store
    outside of the block is undefined behaviour. *)
Definition append (limit : Z) (gid : Z) (g : groups) : appended :=
  let grown :=
    if start g =? size g then
      match grow limit (size g) with
      | Some size' =>
          Some {| start := start g; size := size';
                  groupsp := realloc (groupsp g)
                               (to_size_t (sizeof_gid * to_size_t size')) |}
      | None => None
      end
    else Some g in
  match grown with
  | None => LimitReached
  | Some g =>
      if (0 <=? start g) && (start g <? Z.of_nat (length (groupsp g))) then
        Appended {| start := to_long (start g + 1); size := size g;
                    groupsp := store_at (groupsp g) (Z.to_nat (start g))
                                 (to_gid_t gid) |}
      else Undefined
  end.

(** The loop of lines 358-383.  Every pass consumes one pending outcome of
    the statement, so the fuel given by [_nss_sqlite_initgroups_dyn] is
    never exhausted. *)
Fixpoint collect (fuel : nat) (limit : Z) (pSt : option stmt) (g : groups)
  : collected :=
  match fuel with
  | O => Exhausted g pSt
  | S fuel' =>
      let gid := sqlite3_column_int pSt 0 in
      match append limit gid g with
      | LimitReached => Limit g pSt
      | Undefined => Undef
      | Appended g =>
          let (res, pSt) := sqlite3_step pSt in
          if res =? SQLITE_ROW then collect fuel' limit pSt g
          else Exhausted g pSt
      end
  end.

(** The result is the status with the caller's [errno] and vector after
    the call, or nothing when the behaviour is undefined. *)
Definition _nss_sqlite_initgroups_dyn (s : store) (user : list byte) (gid : Z)
  (g : groups) (limit : Z) (errno : Z) : M (option (Z * Z * groups)) :=
  '(rc, pDb) <- sqlite3_open s ;;
  if negb (rc =? SQLITE_OK) then
    sqlite3_close pDb ;;;
    ret (Some (NSS_STATUS_UNAVAIL, errno, g))
  else
    match get_query s pDb "initgroups_dyn" with
    | None =>
        sqlite3_close pDb ;;;
        ret (Some (NSS_STATUS_UNAVAIL, errno, g))
    | Some sql =>
        '(rc, pSt) <- sqlite3_prepare s pDb sql ;;
        if negb (rc =? SQLITE_OK) then
          sqlite3_finalize pSt ;;;
          sqlite3_close pDb ;;;
          ret (Some (NSS_STATUS_UNAVAIL, errno, g))
        else
          let (rc, pSt) := sqlite3_bind_text s pSt 1 (VText user) in
          if negb (rc =? SQLITE_OK) then
            sqlite3_finalize pSt ;;;
            sqlite3_close pDb ;;;
            ret (Some (NSS_STATUS_UNAVAIL, errno, g))
          else
            let (rc, pSt) := sqlite3_bind_int s pSt 2 (VInt gid) in
            if negb (rc =? SQLITE_OK) then
              sqlite3_finalize pSt ;;;
              sqlite3_close pDb ;;;
              ret (Some (NSS_STATUS_UNAVAIL, errno, g))
            else
              let (rc, pSt) := sqlite3_step pSt in
              res <- res2nss_status rc pDb pSt ;;
              if negb (res =? NSS_STATUS_SUCCESS) then
                ret (Some (res, errno, g))
              else
                match collect (S (length (pending_of pSt))) limit pSt g with
                | Undef => ret None
                | Limit g pSt =>
                    sqlite3_finalize pSt ;;;
                    sqlite3_close pDb ;;;
                    ret (Some (NSS_STATUS_TRYAGAIN, ERANGE, g))
                | Exhausted g pSt =>
                    let g :=
                      {| start := start g; size := start g;
                         groupsp := realloc (groupsp g)
                                      (to_size_t (sizeof_gid * to_size_t (start g))) |} in
                    sqlite3_finalize pSt ;;;
                    sqlite3_close pDb ;;;
                    ret (Some (NSS_STATUS_SUCCESS, errno, g))
                end
    end.

(** What [_nss_sqlite_initgroups_dyn] does with the outcome of its loop
    (lines 370-373 and 384-391). *)
Definition finish (errno : Z) (c : collected) : option (Z * Z * groups) :=
  match c with
  | Undef => None
  | Limit g _ => Some (NSS_STATUS_TRYAGAIN, ERANGE, g)
  | Exhausted g _ =>
      Some (NSS_STATUS_SUCCESS, errno,
            {| start := start g; size := start g;
               groupsp := realloc (groupsp g)
                            (to_size_t (sizeof_gid * to_size_t (start g))) |})
  end.

End InitGroups.

(** ** Group entries and their marshaling *)

(** The fields of a [struct group] that the row of a group query fills. *)
Record group := { gr_name : list byte; gr_passwd : list byte; gr_gid : Z }.

(** The caller's [struct group] once it is filled: the addresses put into
    [gr_name] and [gr_mem], and the group id. *)
Record gbuf := { gbuf_name : Z; gbuf_gid : Z; gbuf_mem : Z }.

(** What an entry point hands back: its status, the caller's [errno], the
    caller's [struct group] if it was filled, and the stores made into the
    caller's buffer. *)
Record reply := {
  r_status : Z;
  r_errno : Z;
  r_gbuf : option gbuf;
  r_writes : list write
}.

Definition failed (status errno : Z) : reply :=
  {| r_status := status; r_errno := errno; r_gbuf := None; r_writes := [] |}.

Definition lock : M unit :=
  fun w => (tt, {| events := events w; next_handle := next_handle w;
                   lock_depth := S (lock_depth w) |}).

Definition unlock : M unit :=
  fun w => (tt, {| events := events w; next_handle := next_handle w;
                   lock_depth := pred (lock_depth w) |}).

(** [grent_data], the state of the enumeration. *)
Record grent_data := {
  pDb : option nat;
  pSt : option stmt;
  try_again : bool;
  entry : group
}.

Definition grent_data_init : grent_data :=
  {| pDb := None; pSt := None; try_again := false;
     entry := {| gr_name := []; gr_passwd := []; gr_gid := 0 |} |}.

Section Groups.

Variable s : store.

(** [fill_group_sql] and [fill_group] of utils.c are not among the
    sources: the entry points below take them as they come.
    [fill_group_sql] reads a group entry off the current row of a
    statement; [fill_group pDb buf buflen entry errno] marshals an entry
    into the buffer at the address [buf]. *)
Variable fill_group_sql : option stmt -> group.
Variable fill_group : option nat -> Z -> Z -> group -> Z -> M reply.

(** *** Point lookups *)

(** Lines 179-220 and 245-286: the two lookups differ in the name of
    their query and in the parameter they bind. *)
Definition lookup (query : string) (param : value) (buf buflen errno : Z)
  : M reply :=
  '(rc, pDb) <- sqlite3_open s ;;
  if negb (rc =? SQLITE_OK) then
    sqlite3_close pDb ;;;
    ret (failed NSS_STATUS_UNAVAIL errno)
  else
    match get_query s pDb query with
    | None =>
        sqlite3_close pDb ;;;
        ret (failed NSS_STATUS_UNAVAIL errno)
    | Some sql =>
        '(rc, pSt) <- sqlite3_prepare s pDb sql ;;
        if negb (rc =? SQLITE_OK) then
          sqlite3_finalize pSt ;;;
          sqlite3_close pDb ;;;
          ret (failed NSS_STATUS_UNAVAIL errno)
        else
          let (rc, pSt) := sqlite3_bind s pSt 1 param in
          if negb (rc =? SQLITE_OK) then
            sqlite3_finalize pSt ;;;
            sqlite3_close pDb ;;;
            ret (failed NSS_STATUS_UNAVAIL errno)
          else
            let (rc, pSt) := sqlite3_step pSt in
            res <- res2nss_status rc pDb pSt ;;
            if negb (res =? NSS_STATUS_SUCCESS) then
              ret (failed res errno)
            else
              let entry := fill_group_sql pSt in
              r <- fill_group pDb buf buflen entry errno ;;
              sqlite3_finalize pSt ;;;
              sqlite3_close pDb ;;;
              ret r
    end.

Definition _nss_sqlite_getgrnam_r (name : list byte) (buf buflen errno : Z)
  : M reply :=
  lookup "getgrnam_r" (VText name) buf buflen errno.


(** *** The enumeration *)

Definition set_pDb (d : grent_data) (db : option nat) : grent_data :=
  {| pDb := db; pSt := pSt d; try_again := try_again d; entry := entry d |}.

Definition set_pSt (d : grent_data) (st : option stmt) : grent_data :=
  {| pDb := pDb d; pSt := st; try_again := try_again d; entry := entry d |}.

Definition set_try_again (d : grent_data) (b : bool) : grent_data :=
  {| pDb := pDb d; pSt := pSt d; try_again := b; entry := entry d |}.

Definition set_entry (d : grent_data) (e : group) : grent_data :=
  {| pDb := pDb d; pSt := pSt d; try_again := try_again d; entry := e |}.

(** Lines 64-89.  The three early returns leave without unlocking.  On
    an open cursor line 86 frees the local [sql], which no line has
    initialised on that path: that is undefined behaviour, and as the heap
    of the query texts is not modelled the embedding does not show it.
    The properties below are about calls on a closed cursor, which is how
    [_nss_sqlite_getgrent_r] calls it. *)
Definition _nss_sqlite_setgrent (d : grent_data) : M (Z * grent_data) :=
  lock ;;;
  match pDb d with
  | None =>
      '(rc, db) <- sqlite3_open s ;;
      let d := set_pDb d db in
      if negb (rc =? SQLITE_OK) then
        ret (NSS_STATUS_UNAVAIL, d)
      else
        match get_query s (pDb d) "setgrent" with
        | None =>
            sqlite3_close (pDb d) ;;;
            ret (NSS_STATUS_UNAVAIL, d)
        | Some sql =>
            '(rc, st) <- sqlite3_prepare s (pDb d) sql ;;
            let d := set_pSt d st in
            if negb (rc =? SQLITE_OK) then
              sqlite3_finalize (pSt d) ;;;
              sqlite3_close (pDb d) ;;;
              ret (NSS_STATUS_UNAVAIL, d)
            else
              unlock ;;;
              ret (NSS_STATUS_SUCCESS, d)
        end
  | Some _ =>
      unlock ;;;
      ret (NSS_STATUS_SUCCESS, d)
  end.

(** Lines 94-104. *)
Definition _nss_sqlite_endgrent (d : grent_data) : M (Z * grent_data) :=
  lock ;;;
  match pDb d with
  | Some _ =>
      sqlite3_finalize (pSt d) ;;;
      sqlite3_close (pDb d) ;;;
      unlock ;;;
      ret (NSS_STATUS_SUCCESS, set_pDb d None)
  | None =>
      unlock ;;;
      ret (NSS_STATUS_SUCCESS, d)
  end.

(** Lines 136-155: advance the statement and marshal the row. *)
Definition fetch (d : grent_data) (buf buflen errno : Z)
  : M (reply * grent_data) :=
  let (rc, st) := sqlite3_step (pSt d) in
  let d := set_pSt d st in
  res <- res2nss_status rc (pDb d) (pSt d) ;;
  if negb (res =? NSS_STATUS_SUCCESS) then
    let d := set_pDb d None in
    unlock ;;;
    ret (failed res errno, d)
  else
    let d := set_entry d (fill_group_sql (pSt d)) in
    r <- fill_group (pDb d) buf buflen (entry d) errno ;;
    if (r_status r =? NSS_STATUS_TRYAGAIN) && (r_errno r =? ERANGE) then
      let d := set_try_again d true in
      unlock ;;;
      ret ({| r_status := NSS_STATUS_TRYAGAIN; r_errno := r_errno r;
              r_gbuf := r_gbuf r; r_writes := r_writes r |}, d)
    else
      unlock ;;;
      ret ({| r_status := NSS_STATUS_SUCCESS; r_errno := r_errno r;
              r_gbuf := r_gbuf r; r_writes := r_writes r |}, d).

(** Lines 115-156.  The stores of a first, failed [fill_group] are kept
    in front of those of the second one, which follow them in time. *)
Definition _nss_sqlite_getgrent_r (d : grent_data) (buf buflen errno : Z)
  : M (reply * grent_data) :=
  lock ;;;
  '(_, d) <- (match pDb d with
              | None => _nss_sqlite_setgrent d
              | Some _ => ret (NSS_STATUS_SUCCESS, d)
              end) ;;
  if try_again d then
    r <- fill_group (pDb d) buf buflen (entry d) errno ;;
    if negb (r_status r =? NSS_STATUS_TRYAGAIN) || negb (r_errno r =? ERANGE) then
      let d := set_try_again d false in
      unlock ;;;
      ret (r, d)
    else
      '(r', d) <- fetch d buf buflen (r_errno r) ;;
      ret ({| r_status := r_status r'; r_errno := r_errno r';
              r_gbuf := match r_gbuf r' with Some g => Some g | None => r_gbuf r end;
              r_writes := r_writes r ++ r_writes r' |}, d)
  else
    fetch d buf buflen errno.

End Groups.

(** ** The marshaling routines of utils.c *)

(** Modelled from the spec: [fill_group_sql] of utils.c is not among the
    sources.  It is the row-to-record mapper of the specification: from a
    positioned row it produces the group record, without input or output
    of its own.  The columns are taken in the order of the record's
    fields: numeric id, name, password placeholder. *)
Definition spec_fill_group_sql (pSt : option stmt) : group :=
  {| gr_name := sqlite3_column_text pSt 1;
     gr_passwd := sqlite3_column_text pSt 2;
     gr_gid := sqlite3_column_int pSt 0 |}.

Definition shift (l : Z) (w : write) : write :=
  {| w_off := w_off w + l; w_data := w_data w |}.

(** Modelled from the spec: [fill_group] of utils.c is not among the
    sources.  It is the record marshaler of the specification: the group
    name is copied into the buffer once the capacity left is known to be
    at least its length plus one, a shortfall being answered with
    TRYAGAIN and ERANGE; the membership list builder, [get_users], is
    invoked as part of the marshaling and packs the member list into the
    rest of the buffer; its status is the status of the marshaling. *)
Definition spec_fill_group (s : store) (pDb : option nat) (buf buflen : Z)
  (entry : group) (errno : Z) : M reply :=
  let l := strlen (gr_name entry) + 1 in
  if buflen <? l then ret (failed NSS_STATUS_TRYAGAIN ERANGE)
  else
    r <- get_users s pDb (gr_gid entry) (buf + l) (buflen - l) errno ;;
    ret {| r_status := f_status r; r_errno := f_errno r;
           r_gbuf := Some {| gbuf_name := buf; gbuf_gid := gr_gid entry;
                             gbuf_mem := buf + l |};
           r_writes := strcpy 0 (gr_name entry) :: map (shift l) (f_writes r) |}.

(** ** Reading the packed buffer back *)

(** The bytes the strings of a member list take, terminators included. *)
Fixpoint string_bytes (members : list (list byte)) : Z :=
  match members with
  | [] => 0
  | m :: rest => (strlen m + 1) + string_bytes rest
  end.

(** A store that lies between the offsets [lo] and [hi]. *)
Definition within (lo hi : Z) (w : write) : Prop :=
  lo <= w_off w /\ w_off w + Z.of_nat (length (w_data w)) <= hi.

(** The members whose lengths the loop can hold in its [int l]. *)
Definition fits_int (members : list (list byte)) : Prop :=
  Forall (fun m => strlen m + 1 <= INT_MAX) members.

(** The buffer after a store that lies inside of it. *)
Definition apply_write (mem : list byte) (w : write) : list byte :=
  firstn (Z.to_nat (w_off w)) mem ++ w_data w
    ++ skipn (Z.to_nat (w_off w) + length (w_data w)) mem.

Definition apply_writes (ws : list write) (mem : list byte) : list byte :=
  fold_left apply_write ws mem.

(** The pointer in slot [i] of the pointer area. *)
Definition load_ptr (mem : list byte) (i : nat) : option Z :=
  let bs := firstn 8 (skipn (8 * i) mem) in
  if Nat.eqb (length bs) 8 then Some (le_combine bs) else None.

(** The C string that starts the bytes [mem], if it is terminated. *)
Fixpoint load_cstr (mem : list byte) : option (list byte) :=
  match mem with
  | [] => None
  | b :: t =>
      if Byte.eqb b Byte.x00 then Some []
      else option_map (cons b) (load_cstr t)
  end.

(** What a reader of [gr_mem] finds: it follows the slots of the pointer
    area from slot [i] up to the NULL slot and reads the string each one
    points to.  The result pairs every string with its offset in the
    buffer, whose address is [base]. *)
Fixpoint unpack_from (fuel : nat) (base : Z) (mem : list byte) (i : nat)
  : option (list (Z * list byte)) :=
  match fuel with
  | O => None
  | S fuel' =>
      match load_ptr mem i with
      | None => None
      | Some p =>
          if p =? NULL then Some []
          else
            let off := p - base in
            if (0 <=? off) && (off <? Z.of_nat (length mem)) then
              match load_cstr (skipn (Z.to_nat off) mem) with
              | Some m =>
                  option_map (cons (off, m)) (unpack_from fuel' base mem (S i))
              | None => None
              end
            else None
      end
  end.

Definition unpack (base : Z) (mem : list byte) : option (list (Z * list byte)) :=
  unpack_from (S (length mem)) base mem 0.

(** The offsets at which the packing loop puts the strings. *)
Fixpoint offsets (next_member : Z) (members : list (list byte)) : list Z :=
  match members with
  | [] => []
  | m :: rest => next_member :: offsets (next_member + (strlen m + 1)) rest
  end.

Definition ptr_bytes (base : Z) (os : list Z) : list byte :=
  flat_map (fun o => le_split 8 (base + o)) os.

Definition str_bytes (members : list (list byte)) : list byte :=
  flat_map (fun m => cstr m ++ [Byte.x00]) members.

(** The string [m] is in [mem] at the offset [o]. *)
Definition string_at (mem : list byte) (o : Z) (m : list byte) : Prop :=
  exists tail, skipn (Z.to_nat o) mem = cstr m ++ Byte.x00 :: tail.

Definition member_row (name : list byte) : outcome := Row [VText name].

(** ** Stating the growth of the group vector *)

Definition gid_row (id : Z) : outcome := Row [VInt id].

(** The group id line 380 stores for the integer [id] of a row. *)
Definition gid_of (id : Z) : Z := to_gid_t (to_int id).

(** The largest number of [gid_t] cells a block can have in a 64-bit
    address space. *)
Definition max_cells : Z := 4611686018427387903.

(** The growable numeric array of the specification: the block has
    [size] cells, of which the first [start] are in use; the size is
    positive, and does not exceed the limit when there is one. *)
Definition vector_ok (limit : Z) (g : groups) : Prop :=
  0 <= start g <= size g /\
  0 < size g <= max_cells /\
  Z.of_nat (length (groupsp g)) = size g /\
  (0 < limit -> size g <= limit).

(** The growth rule in the words of the specification: without a ceiling
    the capacity doubles; with a ceiling above the capacity it becomes the
    smaller of the ceiling and twice the capacity; with the capacity at
    the ceiling the growth fails. *)
Definition spec_grow (ceiling capacity : Z) : option Z :=
  if ceiling <=? 0 then Some (capacity * 2)
  else if capacity <? ceiling then Some (Z.min ceiling (capacity * 2))
  else None.

(** The store opens, provides, prepares and binds the query of
    [_nss_sqlite_initgroups_dyn] for [user] and [gid], and the statement
    yields the ids [ids] and then something that is not a row. *)
Definition yields_groups (s : store) (user : list byte) (gid : Z) (ids : list Z)
  : Prop :=
  exists (sql : string) (rest : list outcome),
    open_rc s = SQLITE_OK /\
    query_text s "initgroups_dyn" = Some sql /\
    prepare_rc s sql = SQLITE_OK /\
    bind_rc s sql 1 = SQLITE_OK /\
    bind_rc s sql 2 = SQLITE_OK /\
    results s sql [VText user; VInt gid] = map gid_row ids ++ rest /\
    rc_of (hd Done rest) <> SQLITE_ROW.

(** ** A small store to run the code on *)

Definition text (t : string) : list byte := list_byte_of_string t.

Definition staff_row : row := [VInt 100; VText (text "staff"); VText (text "x")].
Definition users_row : row := [VInt 200; VText (text "users"); VText (text "x")].

(** Two groups, staff (100) with the members alice and bob and users
    (200) with the member carol; the user alice is in both. *)
Definition demo_results (sql : string) (params : list value) : list outcome :=
  if String.eqb sql "groups" then [Row staff_row; Row users_row; Done]
  else if String.eqb sql "group by name" then
    match params with
    | [VText n] =>
        if list_eq_dec Byte.byte_eq_dec n (text "staff")
        then [Row staff_row; Done] else [Done]
    | _ => [Done]
    end
  else if String.eqb sql "members" then
    match params with
    | [VInt 100] => [Row [VText (text "alice")]; Row [VText (text "bob")]; Done]
    | [VInt 200] => [Row [VText (text "carol")]; Done]
    | _ => [Done]
    end
  else if String.eqb sql "groups of user" then
    [Row [VInt 100]; Row [VInt 200]; Done]
  else [Done].

Definition demo_queries (name : string) : option string :=
  if String.eqb name "setgrent" then Some "groups"%string
  else if String.eqb name "getgrnam_r" then Some "group by name"%string
  else if String.eqb name "getgrgid_r" then Some "group by id"%string
  else if String.eqb name "initgroups_dyn" then Some "groups of user"%string
  else if String.eqb name "get_users" then Some "members"%string
  else None.

Definition demo_store : store :=
  {| open_rc := SQLITE_OK;
     query_text := demo_queries;
     prepare_rc := fun _ => SQLITE_OK;
     bind_rc := fun _ _ => SQLITE_OK;
     results := demo_results |}.

(** The same store with one fault injected. *)
Definition failing_open (s : store) (rc : Z) : store :=
  {| open_rc := rc; query_text := query_text s; prepare_rc := prepare_rc s;
     bind_rc := bind_rc s; results := results s |}.

Definition without_query (s : store) (name : string) : store :=
  {| open_rc := open_rc s;
     query_text := fun n => if String.eqb n name then None else query_text s n;
     prepare_rc := prepare_rc s; bind_rc := bind_rc s; results := results s |}.

Definition failing_prepare (s : store) (sql : string) (rc : Z) : store :=
  {| open_rc := open_rc s; query_text := query_text s;
     prepare_rc := fun q => if String.eqb q sql then rc else prepare_rc s q;
     bind_rc := bind_rc s; results := results s |}.

Definition world_init : world :=
  {| events := []; next_handle := 0; lock_depth := 0 |}.

(** One call of [_nss_sqlite_getgrent_r] on the store [s], with the
    marshaling routines above and a buffer of [buflen] bytes at the
    address 4096. *)
Definition next_entry (s : store) (buflen : Z) (c : grent_data * world)
  : reply * grent_data * world :=
  _nss_sqlite_getgrent_r s spec_fill_group_sql (spec_fill_group s)
    (fst c) 4096 buflen 0 (snd c).

(** A vector with one cell, in use, as the caller of
    [_nss_sqlite_initgroups_dyn] sets it up with the main group. *)
Definition one_group : groups := {| start := 1; size := 1; groupsp := [5] |}.

Definition alice_bob : list (list byte) := [text "alice"; text "bob"].

(** A store whose membership query cannot be prepared. *)
Definition no_members_store : store := failing_prepare demo_store "members" 1.

(** The statement of the enumeration on [demo_store], before its first
    row and after its last one. *)
Definition groups_stmt (pending : list outcome) (current : row) : stmt :=
  {| st_id := 1; st_sql := "groups"; st_params := [];
     st_pending := pending; st_row := current |}.

Definition enumeration (pending : list outcome) (current : row) : grent_data :=
  {| pDb := Some 0%nat; pSt := Some (groups_stmt pending current);
     try_again := false;
     entry := {| gr_name := []; gr_passwd := []; gr_gid := 0 |} |}.

Definition world_opened : world :=
  {| events := [EvOpen 0; EvPrepare (Some 0%nat) 1]; next_handle := 2;
     lock_depth := 0 |}.

(** A store whose membership query yields [n] members with empty names,
    for every group. *)
Definition crowded_store (n : nat) : store :=
  {| open_rc := SQLITE_OK;
     query_text := demo_queries;
     prepare_rc := fun _ => SQLITE_OK;
     bind_rc := fun _ _ => SQLITE_OK;
     results := fun _ _ => map member_row (repeat [] n) ++ [Done] |}.

(** The enumeration on [demo_store] after a call whose buffer was too
    small for users, the last group. *)
Definition last_retry : grent_data :=
  {| pDb := Some 0%nat;
     pSt := Some (groups_stmt [Done] users_row);
     try_again := true;
     entry := spec_fill_group_sql (Some (groups_stmt [Done] users_row)) |}.

(** The enumeration on [demo_store] after a call whose buffer was too
    small for staff: the statement is on the row of staff, which is
    cached for the retry. *)
Definition pending_retry : grent_data :=
  {| pDb := Some 0%nat;
     pSt := Some (groups_stmt [Row users_row; Done] staff_row);
     try_again := true;
     entry := spec_fill_group_sql (Some (groups_stmt [Row users_row; Done] staff_row)) |}.

(** ** Stating what the entry points acquire and release *)

(** The store fails an entry point before its first step: the connection
    cannot be opened, the query has no text, the statement cannot be
    prepared, or one of the parameters [idxs] cannot be bound. *)
Definition setup_fails (s : store) (query : string) (idxs : list Z) : Prop :=
  open_rc s <> SQLITE_OK \/
  match query_text s query with
  | None => True
  | Some sql =>
      prepare_rc s sql <> SQLITE_OK \/
      Exists (fun i => bind_rc s sql i <> SQLITE_OK) idxs
  end.

(** The entry point gets as far as preparing its statement. *)
Definition prepares (s : store) (query : string) : bool :=
  (open_rc s =? SQLITE_OK)
  && match query_text s query with
     | Some sql => prepare_rc s sql =? SQLITE_OK
     | None => false
     end.

(** A connection [h] opened and closed once, around a statement [S h]
    prepared and finalized once if there is one. *)
Definition opened_and_closed (h : nat) (prepared : bool) : list event :=
  EvOpen h
    :: (if prepared then [EvPrepare (Some h) (S h); EvFinalize (S h)] else [])
    ++ [EvClose h].

(** No handle at all, as when the process starts. *)
Definition no_handles : handles := {| connections := []; statements := [] |}.





(** ** Stating where an enumeration goes *)

(** What [_nss_sqlite_endgrent] releases in the state [d]. *)
Definition closing (d : grent_data) : list event :=
  match pDb d with
  | Some db =>
      match pSt d with
      | Some p => [EvFinalize (st_id p)]
      | None => []
      end ++ [EvClose db]
  | None => []
  end.

(** The statement [p] after each of the rows [os] that it has pending,
    [rest] being what follows them. *)
Fixpoint positions (p : stmt) (os : list row) (rest : list outcome) : list stmt :=
  match os with
  | [] => []
  | o :: os' =>
      let q := advance p (Row o) (map Row os' ++ rest) in
      q :: positions q os' rest
  end.

Section Calls.

Variable s : store.
Variable fill_group_sql : option stmt -> group.
Variable fill_group : option nat -> Z -> Z -> group -> Z -> M reply.

(** [n] calls of [_nss_sqlite_getgrent_r] in a row, each with the same
    buffer: the reply of each call with the state it leaves. *)
Fixpoint calls (n : nat) (buf buflen errno : Z) (d : grent_data) (w : world)
  : list (reply * grent_data) * world :=
  match n with
  | O => ([], w)
  | S n' =>
      let '(r, d', w') :=
        _nss_sqlite_getgrent_r s fill_group_sql fill_group d buf buflen errno w in
      let (tr, w'') := calls n' buf buflen errno d' w' in
      ((r, d') :: tr, w'')
  end.

End Calls.

(** ** More faults to inject *)

(** The store [s] with the outcomes of the query [sql] replaced. *)
Definition with_results (s : store) (sql : string) (outcomes : list outcome)
  : store :=
  {| open_rc := open_rc s; query_text := query_text s;
     prepare_rc := prepare_rc s; bind_rc := bind_rc s;
     results := fun q ps => if String.eqb q sql then outcomes else results s q ps |}.

(** A membership query that fails on its first step, and one that fails
    after the row of alice. *)
Definition broken_members : store :=
  with_results demo_store "members" [Fail 10].

Definition interrupted_members : store :=
  with_results demo_store "members"
    [member_row (text "alice"); Fail 10; member_row (text "bob"); Done].

Definition empty_vector : groups := {| start := 0; size := 0; groupsp := [] |}.

(** * Proofs *)

(** Stepping through the monadic code of the embedding. *)
Ltac mrun :=
  cbn [bind ret log fresh fst snd negb sqlite3_finalize sqlite3_close
       sqlite3_bind_int sqlite3_bind_text sqlite3_bind
       st_id st_sql st_params st_pending st_row
       events next_handle lock_depth app].

Ltac crun :=
  cbn [bind ret log fresh lock unlock fst snd negb
       sqlite3_finalize sqlite3_close
       set_pDb set_pSt set_try_again set_entry pDb pSt try_again entry
       failed r_status r_errno r_gbuf r_writes
       st_id st_sql st_params st_pending st_row
       events next_handle lock_depth app].

(** ** Properties of get_users *)

Section GetUsers.

Variable s : store.

Lemma zero_rows_step (p : stmt) :
  hd Done (st_pending p) = Done -> fst (sqlite3_step (Some p)) = SQLITE_DONE.
Proof.
  unfold sqlite3_step. destruct (st_pending p) as [|o rest]; simpl.
  - reflexivity.
  - intros ->. reflexivity.
Qed.

(** C7. When the membership query yields no row, [get_users] succeeds
    with an empty member list, for which it stores the terminator slot and
    nothing else; unless the buffer cannot hold one pointer, in which case
    it fails with TRYAGAIN and ERANGE and stores nothing. *)
Theorem get_users_zero_members :
  forall (pDb : option nat) (gid buffer buflen errno : Z) (w : world) (sql : string),
    get_query s pDb "get_users" = Some sql ->
    prepare_rc s sql = SQLITE_OK ->
    bind_rc s sql 1 = SQLITE_OK ->
    hd Done (results s sql [VInt gid]) = Done ->
    let r := fst (get_users s pDb gid buffer buflen errno w) in
    (buflen < sizeof_ptr ->
       f_status r = NSS_STATUS_TRYAGAIN /\ f_errno r = ERANGE /\ f_writes r = []) /\
    (sizeof_ptr <= buflen ->
       f_status r = NSS_STATUS_SUCCESS /\ f_errno r = errno /\
       f_writes r = [{| w_off := 0; w_data := repeat Byte.x00 8 |}]).
Proof.
  intros pDb gid buffer buflen errno w sql Hq Hp Hb Hz r. subst r.
  unfold get_users. rewrite Hq.
  unfold sqlite3_prepare. rewrite Hp, Z.eqb_refl. mrun.
  rewrite Hb, Z.eqb_refl. mrun.
  match goal with
  | |- context [sqlite3_step (Some ?p)] =>
      pose proof (zero_rows_step p Hz) as Hstep;
      destruct (sqlite3_step (Some p)) as [res pSt]
  end.
  simpl in Hstep. subst res.
  change (SQLITE_DONE =? SQLITE_ROW) with false.
  rewrite Z.eqb_refl. mrun.
  split; intros Hlen;
    [ apply Z.ltb_lt in Hlen | apply Z.ltb_ge in Hlen ];
    rewrite Hlen; destruct pSt; auto.
Qed.

(** *** The packing phase stays inside the buffer *)

Lemma to_size_t_small (z : Z) : 0 <= z <= SIZE_MAX -> to_size_t z = z.
Proof. unfold to_size_t, SIZE_MAX. intros H. apply Z.mod_small. lia. Qed.

Lemma to_int_small (z : Z) : 0 <= z <= INT_MAX -> to_int z = z.
Proof.
  unfold to_int, INT_MAX. intros H.
  rewrite Z.mod_small by lia. lia.
Qed.

Lemma strlen_nonneg (m : list byte) : 0 <= strlen m.
Proof. unfold strlen. lia. Qed.

Lemma string_bytes_nonneg (members : list (list byte)) : 0 <= string_bytes members.
Proof.
  induction members as [|m rest IH]; simpl; [lia|].
  pose proof (strlen_nonneg m). lia.
Qed.

Lemma strcpy_length (off : Z) (m : list byte) :
  Z.of_nat (length (w_data (strcpy off m))) = strlen m + 1.
Proof. unfold strcpy, strlen. simpl. rewrite length_app. simpl. lia. Qed.

Lemma store_ptr_length (i p : Z) :
  Z.of_nat (length (w_data (store_ptr i p))) = sizeof_ptr.
Proof. unfold store_ptr. cbn [w_data]. rewrite length_le_split. reflexivity. Qed.

Lemma pack_status (base errno : Z) (members : list (list byte)) :
  fits_int members ->
  forall i next_member buflen,
    0 <= buflen <= SIZE_MAX ->
    let r := pack base i next_member buflen errno members in
    (string_bytes members <= buflen ->
       f_status r = TRUE /\ f_errno r = errno) /\
    (buflen < string_bytes members ->
       f_status r = NSS_STATUS_TRYAGAIN /\ f_errno r = ERANGE).
Proof.
  induction 1 as [|m rest Hm Hrest IH]; intros i next_member buflen Hlen; simpl.
  - split; [auto | lia].
  - pose proof (strlen_nonneg m) as Hnn.
    pose proof (string_bytes_nonneg rest) as Hsb.
    rewrite (to_size_t_small (strlen m + 1)) by (unfold INT_MAX, SIZE_MAX in *; lia).
    rewrite (to_int_small (strlen m + 1)) by lia.
    rewrite (to_size_t_small (strlen m + 1)) by (unfold INT_MAX, SIZE_MAX in *; lia).
    destruct (Z.ltb_spec buflen (strlen m + 1)) as [Hlt|Hge]; simpl.
    + split; [lia | auto].
    + rewrite (to_size_t_small (buflen - (strlen m + 1))) by lia.
      specialize (IH (i + 1) (next_member + (strlen m + 1)) (buflen - (strlen m + 1))).
      destruct IH as [IH1 IH2]; [lia|].
      split; intros Hc; [apply IH1 | apply IH2]; lia.
Qed.

Lemma pack_writes (base errno : Z) (members : list (list byte)) :
  fits_int members ->
  forall i next_member buflen,
    0 <= buflen <= SIZE_MAX ->
    Forall (fun w =>
              within next_member (next_member + buflen) w \/
              within (i * sizeof_ptr)
                     ((i + Z.of_nat (length members) + 1) * sizeof_ptr) w)
           (f_writes (pack base i next_member buflen errno members)).
Proof.
  induction 1 as [|m rest Hm Hrest IH]; intros i next_member buflen Hlen.
  - simpl. constructor; [|constructor]. right. unfold within.
    rewrite store_ptr_length. unfold store_ptr, sizeof_ptr. simpl. lia.
  - pose proof (strlen_nonneg m) as Hnn.
    cbn [pack].
    rewrite (to_size_t_small (strlen m + 1)) by (unfold INT_MAX, SIZE_MAX in *; lia).
    rewrite (to_int_small (strlen m + 1)) by lia.
    rewrite (to_size_t_small (strlen m + 1)) by (unfold INT_MAX, SIZE_MAX in *; lia).
    destruct (Z.ltb_spec buflen (strlen m + 1)) as [Hlt|Hge]; cbn [f_writes].
    + constructor.
    + rewrite (to_size_t_small (buflen - (strlen m + 1))) by lia.
      constructor; [|constructor].
      * left. unfold within. rewrite strcpy_length. simpl. lia.
      * right. unfold within. rewrite store_ptr_length.
        cbn [length]. unfold store_ptr, sizeof_ptr. simpl w_off. lia.
      * specialize (IH (i + 1) (next_member + (strlen m + 1)) (buflen - (strlen m + 1))).
        eapply Forall_impl; [|apply IH; lia].
        intros w [Hw|Hw]; [left|right]; unfold within in *;
          cbn [length]; unfold sizeof_ptr in *; lia.
Qed.

(** X20.  The packing phase on the records the code's [int] variables
    can measure.  When the pointer area [(mcount + 1) * sizeof (char * )]
    and every [strlen + 1] are at most [INT_MAX], the packing phase of
    [get_users]
    - fails with TRYAGAIN and ERANGE, having stored nothing, when [buflen]
      is smaller than the pointer area;
    - otherwise fails with TRYAGAIN and ERANGE exactly when a name and its
      terminator do not fit in what is left of the string area, and
      succeeds when they all fit;
    - never stores a byte outside of the [buflen] bytes of the buffer. *)
Theorem pack_members_in_bounds :
  forall (base buflen errno : Z) (members : list (list byte)),
    0 <= buflen <= SIZE_MAX ->
    (Z.of_nat (length members) + 1) * sizeof_ptr <= INT_MAX ->
    fits_int members ->
    let r := pack_members base buflen errno members in
    let pointer_table_size := (Z.of_nat (length members) + 1) * sizeof_ptr in
    (buflen < pointer_table_size ->
       f_status r = NSS_STATUS_TRYAGAIN /\ f_errno r = ERANGE /\ f_writes r = []) /\
    (pointer_table_size <= buflen ->
       buflen - pointer_table_size < string_bytes members ->
       f_status r = NSS_STATUS_TRYAGAIN /\ f_errno r = ERANGE) /\
    (pointer_table_size + string_bytes members <= buflen ->
       f_status r = NSS_STATUS_SUCCESS /\ f_errno r = errno) /\
    Forall (in_bounds buflen) (f_writes r).
Proof.
  intros base buflen errno members Hlen Hcount Hfits r pts.
  assert (Hpts : to_int (to_size_t (to_size_t (Z.of_nat (length members) + 1)
                                     * sizeof_ptr)) = pts).
  { subst pts. unfold sizeof_ptr, INT_MAX, SIZE_MAX in *.
    rewrite (to_size_t_small (Z.of_nat (length members) + 1))
      by (unfold SIZE_MAX; lia).
    rewrite to_size_t_small by (unfold SIZE_MAX; lia).
    apply to_int_small. unfold INT_MAX. lia. }
  assert (Hpos : 0 < pts <= INT_MAX) by (subst pts; unfold sizeof_ptr in *; lia).
  subst r. unfold pack_members. rewrite Hpts.
  rewrite (to_size_t_small pts) by (unfold INT_MAX, SIZE_MAX in *; lia).
  destruct (Z.ltb_spec buflen pts) as [Hlt|Hge].
  - cbn [f_status f_errno f_writes].
    pose proof (string_bytes_nonneg members).
    split; [auto|]. split; [auto|]. split; [lia|]. constructor.
  - rewrite (to_size_t_small (buflen - pts)) by lia.
    pose proof (pack_status base errno members Hfits 0 pts (buflen - pts)) as Hst.
    destruct Hst as [Hok Hfail]; [lia|].
    split; [lia|]. split; [intros _ Hshort; apply Hfail; exact Hshort|].
    split; [intros Hroom; apply Hok; lia|].
    eapply Forall_impl;
      [|apply (pack_writes base errno members Hfits 0 pts (buflen - pts)); lia].
    intros w [Hw|Hw]; unfold within, in_bounds in *; subst pts;
      unfold sizeof_ptr in *; lia.
Qed.

Lemma pack_two_empty_names (base : Z) (rest : list (list byte)) :
  f_writes (pack base 0 0 1 0 ([] :: [] :: rest))
  = [strcpy 0 []; store_ptr 0 (base + 0)].
Proof.
  cbn [pack].
  change (to_int (to_size_t (strlen [] + 1))) with 1.
  change (1 <? to_size_t 1) with false. cbv iota.
  change (to_size_t (1 - 1)) with 0.
  change (0 <? to_size_t 1) with true. cbv iota. reflexivity.
Qed.

Lemma repeat_two (A : Type) (x : A) (k : nat) :
  repeat x (S (S k)) = x :: x :: repeat x k.
Proof. reflexivity. Qed.

Lemma pack_members_crowd :
  f_writes (pack_members 4096 1 0 (repeat [] (Z.to_nat 536870911)))
  = [strcpy 0 []; store_ptr 0 4096].
Proof.
  unfold pack_members. rewrite repeat_length.
  rewrite Z2Nat.id by lia.
  change (to_int (to_size_t (to_size_t (536870911 + 1) * sizeof_ptr))) with 0.
  change (1 <? to_size_t 0) with false. cbv iota.
  change (to_size_t (1 - 0)) with 1.
  replace (Z.to_nat 536870911) with (S (S (Z.to_nat 536870909))) by lia.
  rewrite repeat_two. apply pack_two_empty_names.
Qed.

(** With 2^29 - 1 members the pointer area is 2^32 bytes, which line 480
    narrows to the [int] 0: the check of line 482 passes for a buffer of
    one byte, and the store of the first pointer, 8 bytes at offset 0,
    leaves the buffer. *)
Lemma pack_members_int_overflow :
  exists w,
    In w (f_writes (pack_members 4096 1 0 (repeat [] (Z.to_nat 536870911)))) /\
    1 < w_off w + Z.of_nat (length (w_data w)).
Proof.
  exists (store_ptr 0 4096). rewrite pack_members_crowd. split.
  - right. left. reflexivity.
  - rewrite store_ptr_length. reflexivity.
Qed.

(** *** Reading the packed buffer back *)

Lemma offsets_length (members : list (list byte)) :
  forall next, length (offsets next members) = length members.
Proof. induction members; simpl; intros; [reflexivity | f_equal; auto]. Qed.

Lemma ptr_bytes_length (base : Z) (os : list Z) :
  length (ptr_bytes base os) = (8 * length os)%nat.
Proof.
  unfold ptr_bytes. induction os as [|o os IH]; [reflexivity|].
  cbn [flat_map]. rewrite length_app, length_le_split, IH. simpl. lia.
Qed.

Lemma str_bytes_length (members : list (list byte)) :
  Z.of_nat (length (str_bytes members)) = string_bytes members.
Proof.
  unfold str_bytes. induction members as [|m rest IH]; [reflexivity|].
  cbn [flat_map string_bytes]. rewrite !length_app, Nat2Z.inj_add, IH.
  unfold strlen. rewrite Nat2Z.inj_add. simpl. lia.
Qed.

Lemma cstr_idem (m : list byte) : cstr (cstr m) = cstr m.
Proof.
  induction m as [|b t IH]; [reflexivity|]. simpl.
  destruct (Byte.eqb b Byte.x00) eqn:E; [reflexivity|].
  simpl. rewrite E, IH. reflexivity.
Qed.

Lemma load_cstr_cstr (m tail : list byte) :
  load_cstr (cstr m ++ Byte.x00 :: tail) = Some (cstr m).
Proof.
  induction m as [|b t IH]; [reflexivity|]. simpl.
  destruct (Byte.eqb b Byte.x00) eqn:E; [reflexivity|].
  simpl. rewrite E, IH. reflexivity.
Qed.

(** A store that replaces the part [Y] of [X ++ Y ++ Z]. *)
Lemma apply_write_middle (X Y Z' : list byte) (w : write) :
  w_off w = Z.of_nat (length X) ->
  length (w_data w) = length Y ->
  apply_write (X ++ Y ++ Z') w = X ++ w_data w ++ Z'.
Proof.
  intros Hoff Hlen. unfold apply_write.
  rewrite Hoff, Nat2Z.id, Hlen.
  assert (H1 : firstn (length X) (X ++ Y ++ Z') = X).
  { rewrite firstn_app, firstn_all, Nat.sub_diag, firstn_O. apply app_nil_r. }
  assert (H2 : skipn (length X + length Y) (X ++ Y ++ Z') = Z').
  { rewrite app_assoc, <- length_app, skipn_app, skipn_all, Nat.sub_diag.
    reflexivity. }
  rewrite H1, H2. reflexivity.
Qed.

(** The buffer after the packing loop.  Before the loop reaches a member
    the buffer is [A ++ B ++ C ++ D]: [A] holds the pointers stored so
    far, [B] the slots still to fill, [C] whatever lies between the
    pointer area and [next_member], [D] the capacity that is left. *)
Lemma pack_layout (base errno : Z) (members : list (list byte)) :
  fits_int members ->
  forall (i next_member buflen : Z) (A B C D : list byte),
    0 <= buflen <= SIZE_MAX ->
    string_bytes members <= buflen ->
    Z.of_nat (length A) = i * sizeof_ptr ->
    length B = (8 * (length members + 1))%nat ->
    Z.of_nat (length (A ++ B ++ C)) = next_member ->
    string_bytes members <= Z.of_nat (length D) ->
    apply_writes (f_writes (pack base i next_member buflen errno members))
                 (A ++ B ++ C ++ D)
    = A ++ ptr_bytes base (offsets next_member members) ++ le_split 8 NULL
        ++ C ++ str_bytes members ++ skipn (Z.to_nat (string_bytes members)) D.
Proof.
  induction 1 as [|m rest Hm Hrest IH];
    intros i next_member buflen A B C D Hlen Hroom HA HB Hnext HD.
  - cbn [pack f_writes apply_writes fold_left offsets ptr_bytes str_bytes
         flat_map string_bytes app].
    rewrite (apply_write_middle A B (C ++ D)).
    + reflexivity.
    + unfold store_ptr. cbn [w_off]. lia.
    + unfold store_ptr. cbn [w_data]. rewrite length_le_split. simpl in HB. lia.
  - pose proof (strlen_nonneg m) as Hnn.
    pose proof (string_bytes_nonneg rest) as Hsb.
    cbn [string_bytes] in Hroom, HD.
    cbn [pack].
    rewrite (to_size_t_small (strlen m + 1)) by (unfold INT_MAX, SIZE_MAX in *; lia).
    rewrite (to_int_small (strlen m + 1)) by lia.
    rewrite (to_size_t_small (strlen m + 1)) by (unfold INT_MAX, SIZE_MAX in *; lia).
    destruct (Z.ltb_spec buflen (strlen m + 1)) as [Hlt|Hge]; [lia|].
    rewrite (to_size_t_small (buflen - (strlen m + 1))) by lia.
    cbn [f_writes apply_writes fold_left].
    set (l := (length (cstr m) + 1)%nat).
    assert (Hl : Z.of_nat l = strlen m + 1) by (unfold l, strlen; lia).
    (* the string *)
    assert (H1 : apply_write (A ++ B ++ C ++ D) (strcpy next_member m)
                 = A ++ B ++ (C ++ cstr m ++ [Byte.x00]) ++ skipn l D).
    { rewrite <- (firstn_skipn l D) at 1.
      replace (A ++ B ++ C ++ firstn l D ++ skipn l D)
        with ((A ++ B ++ C) ++ firstn l D ++ skipn l D)
        by (rewrite <- !app_assoc; reflexivity).
      rewrite apply_write_middle.
      - unfold strcpy. cbn [w_data]. rewrite <- !app_assoc. reflexivity.
      - unfold strcpy. cbn [w_off]. lia.
      - unfold strcpy. cbn [w_data]. rewrite length_app, length_firstn.
        simpl. lia. }
    rewrite H1.
    (* the pointer *)
    assert (H2 : apply_write (A ++ B ++ (C ++ cstr m ++ [Byte.x00]) ++ skipn l D)
                             (store_ptr i (base + next_member))
                 = (A ++ le_split 8 (base + next_member)) ++ skipn 8 B
                     ++ (C ++ cstr m ++ [Byte.x00]) ++ skipn l D).
    { rewrite <- (firstn_skipn 8 B) at 1.
      rewrite <- (app_assoc (firstn 8 B)).
      rewrite apply_write_middle.
      - unfold store_ptr. cbn [w_data]. rewrite <- !app_assoc. reflexivity.
      - unfold store_ptr. cbn [w_off]. lia.
      - unfold store_ptr. cbn [w_data].
        rewrite length_le_split, length_firstn. lia. }
    rewrite H2.
    change (fold_left apply_write ?ws ?mem) with (apply_writes ws mem).
    rewrite (IH (i + 1) (next_member + (strlen m + 1)) (buflen - (strlen m + 1))).
    + cbn [offsets ptr_bytes str_bytes flat_map string_bytes].
      rewrite skipn_skipn.
      replace (Z.to_nat (string_bytes rest) + l)%nat
        with (Z.to_nat (strlen m + 1 + string_bytes rest)) by lia.
      rewrite <- !app_assoc. reflexivity.
    + lia.
    + lia.
    + rewrite length_app, length_le_split. unfold sizeof_ptr in *. lia.
    + rewrite length_skipn. cbn [length] in HB. lia.
    + rewrite !length_app in *. rewrite length_le_split, length_skipn.
      cbn [length] in *. lia.
    + rewrite length_skipn. lia.
Qed.

Lemma load_ptr_at (A bs tail : list byte) (i : nat) :
  length A = (8 * i)%nat -> length bs = 8%nat ->
  load_ptr (A ++ bs ++ tail) i = Some (le_combine bs).
Proof.
  intros HA Hbs. unfold load_ptr.
  rewrite <- HA, skipn_app, skipn_all, Nat.sub_diag. cbn [skipn app].
  rewrite <- Hbs, firstn_app, firstn_all, Nat.sub_diag, firstn_O, app_nil_r.
  rewrite Nat.eqb_refl. reflexivity.
Qed.

Lemma le_combine_address (a : Z) :
  0 <= a <= SIZE_MAX -> le_combine (le_split 8 a) = a.
Proof.
  intros Ha. rewrite le_combine_split. apply Z.mod_small.
  unfold SIZE_MAX in Ha. simpl. lia.
Qed.

Lemma load_ptr_table (base : Z) (os : list Z) (tail : list byte) :
  Forall (fun o => 0 <= base + o <= SIZE_MAX) os ->
  forall (A : list byte) (i : nat),
    length A = (8 * i)%nat ->
    forall (k : nat) (o : Z),
      nth_error os k = Some o ->
      load_ptr (A ++ ptr_bytes base os ++ tail) (i + k) = Some (base + o).
Proof.
  induction 1 as [|o' os Ho Hos IH]; intros A i HA k o Hk.
  - destruct k; discriminate.
  - unfold ptr_bytes. cbn [flat_map]. fold (ptr_bytes base os).
    rewrite <- app_assoc. destruct k as [|k].
    + injection Hk as <-. rewrite Nat.add_0_r.
      rewrite load_ptr_at by (rewrite ?length_le_split; auto).
      rewrite le_combine_address by assumption. reflexivity.
    + rewrite app_assoc.
      replace (i + S k)%nat with (S i + k)%nat by lia.
      apply IH; [|exact Hk].
      rewrite length_app, length_le_split. lia.
Qed.

Lemma strings_in_table (members : list (list byte)) :
  forall (next : Z) (P R : list byte),
    Z.of_nat (length P) = next ->
    Forall2 (string_at (P ++ str_bytes members ++ R))
            (offsets next members) members.
Proof.
  induction members as [|m rest IH]; intros next P R HP; [constructor|].
  cbn [offsets str_bytes flat_map]. fold (str_bytes rest). constructor.
  - exists (str_bytes rest ++ R).
    rewrite <- HP, Nat2Z.id, skipn_app, skipn_all, Nat.sub_diag.
    cbn [skipn app]. rewrite <- !app_assoc. reflexivity.
  - replace (P ++ ((cstr m ++ [Byte.x00]) ++ str_bytes rest) ++ R)
      with ((P ++ cstr m ++ [Byte.x00]) ++ str_bytes rest ++ R)
      by (rewrite <- !app_assoc; reflexivity).
    apply IH. rewrite !length_app. unfold strlen. simpl. lia.
Qed.

Lemma offsets_range (members : list (list byte)) :
  forall next, Forall (fun o => next <= o /\ o < next + string_bytes members)
                      (offsets next members).
Proof.
  induction members as [|m rest IH]; intros next; cbn [offsets string_bytes];
    constructor.
  - pose proof (strlen_nonneg m). pose proof (string_bytes_nonneg rest). lia.
  - eapply Forall_impl; [|apply IH]. pose proof (strlen_nonneg m).
    intros o Ho. cbv beta in Ho. lia.
Qed.

Lemma unpack_from_ok (base : Z) (mem : list byte) (os : list Z)
  (members : list (list byte)) :
  Forall2 (string_at mem) os members ->
  Forall (fun o => 0 <= o < Z.of_nat (length mem) /\ base + o <> NULL) os ->
  forall (i fuel : nat),
    (length os < fuel)%nat ->
    (forall k o, nth_error os k = Some o -> load_ptr mem (i + k) = Some (base + o)) ->
    load_ptr mem (i + length os) = Some NULL ->
    unpack_from fuel base mem i = Some (combine os (map cstr members)).
Proof.
  induction 1 as [|o m os members Hat Hrest IH];
    intros Hos i fuel Hfuel Hptrs Hnull.
  - destruct fuel as [|fuel]; [simpl in Hfuel; lia|].
    cbn [unpack_from]. cbn [length] in Hnull. rewrite Nat.add_0_r in Hnull.
    rewrite Hnull. reflexivity.
  - destruct fuel as [|fuel]; [simpl in Hfuel; lia|].
    inversion Hos as [|? ? [Hrange Hnz] Hos']; subst.
    cbn [unpack_from].
    pose proof (Hptrs 0%nat o eq_refl) as H0. rewrite Nat.add_0_r in H0.
    rewrite H0.
    destruct (Z.eqb_spec (base + o) NULL) as [E|_]; [contradiction|].
    replace (base + o - base) with o by lia.
    destruct (Z.leb_spec 0 o); [|lia].
    destruct (Z.ltb_spec o (Z.of_nat (length mem))); [|lia].
    cbn [andb]. destruct Hat as [tail Htail]. rewrite Htail, load_cstr_cstr.
    rewrite (IH Hos' (S i) fuel).
    + reflexivity.
    + simpl in Hfuel. lia.
    + intros k o' Hk. replace (S i + k)%nat with (i + S k)%nat by lia.
      apply Hptrs. exact Hk.
    + cbn [length] in Hnull.
      replace (S i + length os)%nat with (i + S (length os))%nat by lia.
      exact Hnull.
Qed.

Lemma pack_terminator_last (base errno : Z) (members : list (list byte)) :
  fits_int members ->
  forall i next_member buflen,
    0 <= buflen <= SIZE_MAX ->
    string_bytes members <= buflen ->
    exists ws,
      f_writes (pack base i next_member buflen errno members)
      = ws ++ [store_ptr (i + Z.of_nat (length members)) NULL].
Proof.
  induction 1 as [|m rest Hm Hrest IH]; intros i next_member buflen Hlen Hroom.
  - exists []. cbn [pack f_writes length app]. rewrite Z.add_0_r. reflexivity.
  - pose proof (strlen_nonneg m) as Hnn.
    pose proof (string_bytes_nonneg rest) as Hsb.
    cbn [string_bytes] in Hroom. cbn [pack].
    rewrite (to_size_t_small (strlen m + 1)) by (unfold INT_MAX, SIZE_MAX in *; lia).
    rewrite (to_int_small (strlen m + 1)) by lia.
    rewrite (to_size_t_small (strlen m + 1)) by (unfold INT_MAX, SIZE_MAX in *; lia).
    destruct (Z.ltb_spec buflen (strlen m + 1)) as [Hlt|Hge]; [lia|].
    rewrite (to_size_t_small (buflen - (strlen m + 1))) by lia.
    destruct (IH (i + 1) (next_member + (strlen m + 1)) (buflen - (strlen m + 1)))
      as [ws Hws]; [lia|lia|].
    exists (strcpy next_member m :: store_ptr i (base + next_member) :: ws).
    cbn [f_writes]. rewrite Hws. cbn [length app].
    replace (i + 1 + Z.of_nat (length rest)) with (i + Z.of_nat (S (length rest)))
      by lia.
    reflexivity.
Qed.

(** X21.  The round trip on the records the code's [int] variables can
    measure.  Packing
    N member names that take S bytes, terminators included, into a buffer
    of at least [(N + 1) * sizeof (char * ) + S] bytes succeeds.  Reading
    the buffer back through its pointer area gives the member names in
    their order, each at an offset inside the string area that follows
    the pointer area, each terminated; the slot after the last pointer is
    NULL, and it is the last thing stored. *)
Theorem pack_members_round_trip :
  forall (base buflen errno : Z) (members : list (list byte)) (mem : list byte),
    0 < base -> base + buflen <= SIZE_MAX ->
    Z.of_nat (length mem) = buflen ->
    (Z.of_nat (length members) + 1) * sizeof_ptr <= INT_MAX ->
    fits_int members ->
    (Z.of_nat (length members) + 1) * sizeof_ptr + string_bytes members <= buflen ->
    let r := pack_members base buflen errno members in
    let pointer_table_size := (Z.of_nat (length members) + 1) * sizeof_ptr in
    f_status r = NSS_STATUS_SUCCESS /\
    (exists entries,
        unpack base (apply_writes (f_writes r) mem) = Some entries /\
        map snd entries = map cstr members /\
        Forall (fun o => pointer_table_size <= o < buflen) (map fst entries)) /\
    (exists ws,
        f_writes r = ws ++ [store_ptr (Z.of_nat (length members)) NULL]).
Proof.
  intros base buflen errno members mem Hbase Htop Hmem Hcount Hfits Hroom r pts.
  pose proof (string_bytes_nonneg members) as Hsb.
  assert (Hpts : to_int (to_size_t (to_size_t (Z.of_nat (length members) + 1)
                                     * sizeof_ptr)) = pts).
  { subst pts. unfold sizeof_ptr, INT_MAX in *.
    rewrite (to_size_t_small (Z.of_nat (length members) + 1))
      by (unfold SIZE_MAX; lia).
    rewrite to_size_t_small by (unfold SIZE_MAX; lia).
    apply to_int_small. unfold INT_MAX. lia. }
  assert (Hpos : 0 < pts <= INT_MAX) by (subst pts; unfold sizeof_ptr in *; lia).
  assert (Hbuf : 0 <= buflen <= SIZE_MAX) by lia.
  assert (Hr : r = pack base 0 pts (buflen - pts) errno members).
  { subst r. unfold pack_members. rewrite Hpts.
    rewrite (to_size_t_small pts) by (unfold INT_MAX, SIZE_MAX in *; lia).
    destruct (Z.ltb_spec buflen pts) as [Hlt|Hge]; [lia|].
    rewrite (to_size_t_small (buflen - pts)) by lia. reflexivity. }
  split; [|split].
  - rewrite Hr.
    apply (pack_status base errno members Hfits 0 pts (buflen - pts)); lia.
  - set (np := (8 * (length members + 1))%nat).
    assert (Hnp : Z.of_nat np = pts) by (subst np pts; unfold sizeof_ptr; lia).
    set (os := offsets pts members).
    set (mem' := ptr_bytes base os ++ le_split 8 NULL
                   ++ str_bytes members
                   ++ skipn (Z.to_nat (string_bytes members)) (skipn np mem)).
    assert (Hfinal : apply_writes (f_writes r) mem = mem').
    { rewrite Hr. rewrite <- (firstn_skipn np mem) at 1.
      pose proof (pack_layout base errno members Hfits 0 pts (buflen - pts)
                    [] (firstn np mem) [] (skipn np mem)) as HL.
      cbn [app] in HL. rewrite app_nil_r in HL. rewrite HL; try lia.
      - reflexivity.
      - reflexivity.
      - rewrite length_firstn. lia.
      - rewrite length_firstn. lia.
      - rewrite length_skipn. lia. }
    assert (Hlen' : Z.of_nat (length mem') = buflen).
    { subst mem'. rewrite !length_app, ptr_bytes_length, length_le_split,
        !length_skipn. unfold os. rewrite offsets_length.
      pose proof (str_bytes_length members). lia. }
    assert (Hos : Forall (fun o => pts <= o /\ o < pts + string_bytes members) os)
      by apply offsets_range.
    exists (combine os (map cstr members)).
    assert (Hcomb : length os = length (map cstr members))
      by (unfold os; rewrite offsets_length, length_map; reflexivity).
    split; [|split].
    + rewrite Hfinal. unfold unpack. apply unpack_from_ok.
      * subst mem'. rewrite (app_assoc (ptr_bytes base os)).
        apply strings_in_table.
        rewrite length_app, ptr_bytes_length, length_le_split.
        unfold os. rewrite offsets_length. lia.
      * eapply Forall_impl; [|exact Hos]. intros o Ho. cbv beta in Ho.
        unfold NULL. lia.
      * unfold os. rewrite offsets_length. lia.
      * intros k o Hk. subst mem'.
        apply (load_ptr_table base os _) with (A := []) (i := 0%nat);
          [|reflexivity|exact Hk].
        eapply Forall_impl; [|exact Hos]. intros o' Ho'. cbv beta in Ho'. lia.
      * subst mem'. cbn [Nat.add].
        rewrite load_ptr_at;
          [| apply ptr_bytes_length | apply length_le_split].
        rewrite le_combine_address by (unfold NULL, SIZE_MAX; lia).
        reflexivity.
    + clear -Hcomb. revert Hcomb. generalize (map cstr members).
      induction os as [|o os IH]; intros [|m l] Hc; try discriminate;
        [reflexivity|].
      cbn [combine map snd]. f_equal. apply IH. simpl in Hc. lia.
    + assert (Hfst : map fst (combine os (map cstr members)) = os).
      { clear -Hcomb. revert Hcomb. generalize (map cstr members).
        induction os as [|o os IH]; intros [|m l] Hc; try discriminate;
          [reflexivity|].
        cbn [combine map fst]. f_equal. apply IH. simpl in Hc. lia. }
      rewrite Hfst. eapply Forall_impl; [|exact Hos].
      intros o Ho. cbv beta in Ho. lia.
  - rewrite Hr.
    destruct (pack_terminator_last base errno members Hfits 0 pts (buflen - pts))
      as [ws Hws]; [lia|lia|].
    exists ws. rewrite Hws. reflexivity.
Qed.

Lemma string_bytes_repeat_empty (n : nat) :
  string_bytes (repeat [] n) = Z.of_nat n.
Proof.
  induction n as [|n IH]; [reflexivity|].
  cbn [repeat string_bytes]. rewrite IH. unfold strlen. simpl cstr.
  cbn [length]. lia.
Qed.

Lemma pack_members_crowd_refused :
  f_status (pack_members 4096 2415919103 0 (repeat [] (Z.to_nat 268435455)))
  = NSS_STATUS_TRYAGAIN.
Proof.
  unfold pack_members. rewrite repeat_length.
  rewrite Z2Nat.id by lia.
  change (to_int (to_size_t (to_size_t (268435455 + 1) * sizeof_ptr)))
    with (-2147483648).
  change (2415919103 <? to_size_t (-2147483648)) with true.
  reflexivity.
Qed.

(** With 2^28 - 1 members the pointer area is 2^31 bytes, which line 480
    narrows to the negative [int] -2^31; line 482 compares it as a
    [size_t] and refuses a buffer that has room for the pointer area and
    for every string. *)
Lemma pack_members_table_overflow :
  (Z.of_nat (length (repeat (A:=list byte) [] (Z.to_nat 268435455))) + 1) * sizeof_ptr
    + string_bytes (repeat [] (Z.to_nat 268435455)) <= 2415919103 /\
  f_status (pack_members 4096 2415919103 0 (repeat [] (Z.to_nat 268435455)))
    = NSS_STATUS_TRYAGAIN.
Proof.
  split.
  - rewrite string_bytes_repeat_empty, repeat_length. unfold sizeof_ptr. lia.
  - exact pack_members_crowd_refused.
Qed.

(** *** From the rows of the membership query to the packing phase *)

Lemma gather_rows (names : list (list byte)) :
  forall (fuel : nat) (p : stmt) (acc : list (list byte))
         (n0 : list byte) (rest : list outcome),
    st_row p = [VText n0] ->
    st_pending p = map member_row names ++ rest ->
    rc_of (hd Done rest) <> SQLITE_ROW ->
    (length names < fuel)%nat ->
    exists p',
      gather fuel (Some p) acc = (acc ++ map strdup (n0 :: names), Some p') /\
      st_id p' = st_id p.
Proof.
  induction names as [|n1 names IH];
    intros fuel p acc n0 rest Hrow Hpend Hrest Hfuel;
    (destruct fuel as [|fuel]; [simpl in Hfuel; lia|]);
    cbn [gather]; unfold sqlite3_column_text, current_row; rewrite Hrow;
    cbn [nth_error]; unfold sqlite3_step; rewrite Hpend; cbn [map app].
  - destruct rest as [|o rest].
    + change (SQLITE_DONE =? SQLITE_ROW) with false. cbv iota.
      eexists. split; reflexivity.
    + cbn [hd] in Hrest. apply Z.eqb_neq in Hrest. rewrite Hrest.
      eexists. split; reflexivity.
  - cbn [member_row rc_of]. rewrite Z.eqb_refl.
    destruct (IH fuel (advance p (Row [VText n1]) (map member_row names ++ rest))
                (acc ++ [strdup n0]) n1 rest) as [p' [Hg Hid]];
      [reflexivity | reflexivity | exact Hrest | simpl in Hfuel; lia |].
    exists p'. split; [|exact Hid].
    unfold member_row at 1. rewrite Hg. cbn [map]. rewrite <- app_assoc.
    reflexivity.
Qed.

(** On a store that prepares and binds the membership query and yields
    the rows [n0 :: names] and then something that is not a row,
    [get_users] packs the copies of these names; it prepares one
    statement and finalizes it. *)
Lemma get_users_packs :
  forall (pDb : option nat) (gid buffer buflen errno : Z) (w : world)
         (sql : string) (n0 : list byte) (names : list (list byte))
         (rest : list outcome),
    get_query s pDb "get_users" = Some sql ->
    prepare_rc s sql = SQLITE_OK ->
    bind_rc s sql 1 = SQLITE_OK ->
    results s sql [VInt gid] = map member_row (n0 :: names) ++ rest ->
    rc_of (hd Done rest) <> SQLITE_ROW ->
    get_users s pDb gid buffer buflen errno w
    = (pack_members buffer buflen errno (map strdup (n0 :: names)),
       {| events := events w ++ [EvPrepare pDb (next_handle w);
                                 EvFinalize (next_handle w)];
          next_handle := S (next_handle w);
          lock_depth := lock_depth w |}).
Proof.
  intros pDb gid buffer buflen errno w sql n0 names rest Hq Hp Hb Hres Hrest.
  unfold get_users. rewrite Hq.
  unfold sqlite3_prepare. rewrite Hp, Z.eqb_refl. mrun.
  rewrite Hb, Z.eqb_refl. mrun.
  unfold sqlite3_step at 1. mrun. rewrite Hres. cbn [map app member_row rc_of].
  rewrite Z.eqb_refl. mrun. cbn [pending_of advance st_pending].
  match goal with
  | |- context [gather ?f (Some ?p) []] =>
      destruct (gather_rows names f p [] n0 rest) as [p' [Hg Hid]];
        [reflexivity | reflexivity | exact Hrest
        | rewrite length_app, length_map; lia |]
  end.
  rewrite Hg. mrun. rewrite Hid. cbn [advance st_id app].
  rewrite <- app_assoc. reflexivity.
Qed.

End GetUsers.

Lemma map_strdup_empty (n : nat) :
  map strdup (repeat (A:=list byte) [] n) = repeat [] n.
Proof.
  induction n as [|n IH]; [reflexivity|].
  cbn [repeat map]. rewrite IH. reflexivity.
Qed.

Lemma get_users_crowd (n : nat) (buflen : Z) :
  fst (get_users (crowded_store (S n)) (Some 0%nat) 100 4096 buflen 0 world_init)
  = pack_members 4096 buflen 0 (repeat [] (S n)).
Proof.
  rewrite (get_users_packs (crowded_store (S n)) (Some 0%nat) 100 4096 buflen 0
             world_init "members" [] (repeat [] n) [Done]);
    try reflexivity; [|discriminate].
  cbn [fst]. rewrite <- (map_strdup_empty (S n)). reflexivity.
Qed.

(** C3 fails on a group with 2^29 - 1 members and a buffer of one byte.
    The check of line 482 is there, but [ptr_area_size] is an [int]: the
    size of the pointer area, 2^32, is narrowed to 0 at line 480, the
    check passes, and [get_users] stores 8 bytes at offset 0 of the
    buffer of one byte. *)
Example get_users_int_overflow :
  exists w,
    In w (f_writes (fst (get_users (crowded_store (Z.to_nat 536870911))
                           (Some 0%nat) 100 4096 1 0 world_init))) /\
    1 < w_off w + Z.of_nat (length (w_data w)).
Proof.
  replace (Z.to_nat 536870911) with (S (Z.to_nat 536870910)) by lia.
  rewrite get_users_crowd.
  replace (S (Z.to_nat 536870910)) with (Z.to_nat 536870911) by lia.
  exists (store_ptr 0 4096). rewrite pack_members_crowd. split.
  - right. left. reflexivity.
  - rewrite store_ptr_length. reflexivity.
Qed.

(** C4 fails on a group with 2^28 - 1 members, whose names are empty,
    and a buffer of 2^31 + 2^28 - 1 bytes, which has room for the pointer
    area and for every string.  The size of the pointer area, 2^31, is
    narrowed to the negative [int] -2^31 at line 480, line 482 compares
    it as a [size_t], and [get_users] answers TRYAGAIN. *)
Example get_users_table_overflow :
  let members := repeat (A:=list byte) [] (Z.to_nat 268435455) in
  (Z.of_nat (length members) + 1) * sizeof_ptr + string_bytes members
    <= 2415919103 /\
  f_status (fst (get_users (crowded_store (Z.to_nat 268435455))
                   (Some 0%nat) 100 4096 2415919103 0 world_init))
  = NSS_STATUS_TRYAGAIN.
Proof.
  split; [exact (proj1 pack_members_table_overflow)|].
  replace (Z.to_nat 268435455) with (S (Z.to_nat 268435454)) by lia.
  rewrite get_users_crowd.
  replace (S (Z.to_nat 268435454)) with (Z.to_nat 268435455) by lia.
  exact pack_members_crowd_refused.
Qed.

(** ** The group vector of _nss_sqlite_initgroups_dyn *)

Lemma to_long_small (z : Z) : 0 <= z <= LONG_MAX -> to_long z = z.
Proof.
  unfold to_long, LONG_MAX. intros H. rewrite Z.mod_small by lia. lia.
Qed.

Lemma store_at_length (t : list Z) (i : nat) (v : Z) :
  (i < length t)%nat -> length (store_at t i v) = length t.
Proof.
  intros Hi. unfold store_at.
  rewrite length_app, length_firstn. cbn [length]. rewrite length_skipn. lia.
Qed.

Lemma store_at_prefix (t : list Z) (i : nat) (v : Z) :
  (i < length t)%nat -> firstn (S i) (store_at t i v) = firstn i t ++ [v].
Proof.
  intros Hi. unfold store_at.
  rewrite firstn_app, length_firstn, Nat.min_l by lia.
  rewrite (firstn_all2 (n := S i) (firstn i t)) by (rewrite length_firstn; lia).
  replace (S i - i)%nat with 1%nat by lia. reflexivity.
Qed.

Lemma store_at_other (t : list Z) (i j : nat) (v : Z) :
  (j < i)%nat -> (i < length t)%nat ->
  nth_error (store_at t i v) j = nth_error t j.
Proof.
  intros Hj Hi. unfold store_at.
  rewrite nth_error_app1 by (rewrite length_firstn; lia).
  rewrite nth_error_firstn.
  destruct (Nat.ltb_spec j i); [reflexivity | lia].
Qed.

Section InitGroupsProofs.

Variable junk : nat -> Z.

Lemma realloc_length (t : list Z) (n : Z) :
  0 <= n <= max_cells ->
  Z.of_nat (length (realloc junk t (to_size_t (sizeof_gid * to_size_t n)))) = n.
Proof.
  intros Hn. unfold max_cells in Hn.
  rewrite (to_size_t_small n) by (unfold SIZE_MAX; lia).
  rewrite to_size_t_small by (unfold SIZE_MAX, sizeof_gid; lia).
  unfold realloc, sizeof_gid.
  replace (4 * n / 4) with n by (rewrite Z.mul_comm, Z.div_mul; lia).
  rewrite length_app, length_firstn, length_map, length_seq. lia.
Qed.

Lemma realloc_prefix (t : list Z) (n : Z) (k : nat) :
  0 <= n <= max_cells ->
  (k <= length t)%nat -> Z.of_nat k <= n ->
  firstn k (realloc junk t (to_size_t (sizeof_gid * to_size_t n))) = firstn k t.
Proof.
  intros Hn Hk Hkn. unfold max_cells in Hn.
  rewrite (to_size_t_small n) by (unfold SIZE_MAX; lia).
  rewrite to_size_t_small by (unfold SIZE_MAX, sizeof_gid; lia).
  unfold realloc, sizeof_gid.
  replace (4 * n / 4) with n by (rewrite Z.mul_comm, Z.div_mul; lia).
  rewrite firstn_app, length_firstn.
  replace (k - Nat.min (Z.to_nat n) (length t))%nat with 0%nat by lia.
  cbn [firstn]. rewrite app_nil_r, firstn_firstn. f_equal. lia.
Qed.


(** The code's growth rule is the specification's, for the vectors of the
    specification. *)
Lemma grow_spec (limit size : Z) :
  0 < size -> 2 * size <= LONG_MAX -> (0 < limit -> size <= limit) ->
  grow limit size = spec_grow limit size.
Proof.
  intros Hpos Hmax Hlim. unfold grow, spec_grow.
  rewrite to_long_small by lia.
  destruct (Z.ltb_spec 0 limit) as [H0|H0];
    destruct (Z.leb_spec limit 0) as [H1|H1]; try lia; [|reflexivity].
  destruct (Z.ltb_spec size limit) as [H2|H2]; [|reflexivity].
  destruct (Z.ltb_spec limit (size * 2)) as [H3|H3]; f_equal; lia.
Qed.

(** One pass of lines 362-381 on a vector of the specification that is
    not full at its limit: the id is appended, the ids before it stay
    where they are, and the size follows the growth rule. *)
Lemma append_appends (limit gid : Z) (g : groups) :
  vector_ok limit g ->
  2 * start g <= max_cells ->
  ~ (0 < limit /\ start g = limit) ->
  exists g',
    append junk limit gid g = Appended g' /\
    start g' = start g + 1 /\
    vector_ok limit g' /\
    Some (size g') = (if start g =? size g then spec_grow limit (size g)
                      else Some (size g)) /\
    firstn (Z.to_nat (start g + 1)) (groupsp g')
      = firstn (Z.to_nat (start g)) (groupsp g) ++ [to_gid_t gid] /\
    (forall i, (i < Z.to_nat (start g))%nat ->
               nth_error (groupsp g') i = nth_error (groupsp g) i).
Proof.
  intros (Hstart & Hsize & Hlen & Hlim) Hroom Hnot.
  unfold max_cells in *. unfold append.
  destruct (Z.eqb_spec (start g) (size g)) as [Heq|Hne].
  - rewrite grow_spec by (unfold LONG_MAX; lia).
    unfold spec_grow.
    assert (Hcase : exists c, (if limit <=? 0 then Some (size g * 2)
                               else if size g <? limit
                                    then Some (Z.min limit (size g * 2))
                                    else None) = Some c /\
                              size g < c <= 2 * size g /\
                              (0 < limit -> c <= limit)).
    { destruct (Z.leb_spec limit 0) as [H0|H0].
      - exists (size g * 2). split; [reflexivity|lia].
      - destruct (Z.ltb_spec (size g) limit) as [H1|H1].
        + exists (Z.min limit (size g * 2)). split; [reflexivity|lia].
        + exfalso. apply Hnot. lia. }
    destruct Hcase as (c & -> & Hc & Hclim).
    cbn [start size groupsp].
    pose proof (realloc_length (groupsp g) c) as HRlen.
    pose proof (realloc_prefix (groupsp g) c (Z.to_nat (start g))) as HRpre.
    set (R := realloc junk (groupsp g) (to_size_t (sizeof_gid * to_size_t c))) in *.
    assert (HlenR : Z.of_nat (length R) = c) by (apply HRlen; unfold max_cells; lia).
    destruct (Z.leb_spec 0 (start g)); [|lia].
    destruct (Z.ltb_spec (start g) (Z.of_nat (length R))); [|lia].
    cbn [andb]. eexists. split; [reflexivity|]. cbn [start size groupsp].
    rewrite to_long_small by (unfold LONG_MAX; lia).
    split; [reflexivity|]. split.
    { unfold vector_ok, max_cells. cbn [start size groupsp].
      rewrite store_at_length by lia. lia. }
    split; [reflexivity|]. split.
    { replace (Z.to_nat (start g + 1)) with (S (Z.to_nat (start g))) by lia.
      rewrite store_at_prefix by lia. rewrite HRpre; [reflexivity| |lia|lia].
      unfold max_cells. lia. }
    intros i Hi. rewrite store_at_other by lia.
    assert (Hfi : firstn (S i) R = firstn (S i) (groupsp g)).
    { unfold R. apply realloc_prefix; unfold max_cells; lia. }
    assert (Hnth : forall l : list Z, nth_error l i = nth_error (firstn (S i) l) i).
    { intros l. rewrite nth_error_firstn.
      destruct (Nat.ltb_spec i (S i)); [reflexivity|lia]. }
    rewrite (Hnth R), (Hnth (groupsp g)), Hfi. reflexivity.
  - cbn [start size groupsp].
    destruct (Z.leb_spec 0 (start g)); [|lia].
    destruct (Z.ltb_spec (start g) (Z.of_nat (length (groupsp g)))); [|lia].
    cbn [andb]. eexists. split; [reflexivity|]. cbn [start size groupsp].
    rewrite to_long_small by (unfold LONG_MAX; lia).
    split; [reflexivity|]. split.
    { unfold vector_ok, max_cells. cbn [start size groupsp].
      rewrite store_at_length by lia. lia. }
    split; [reflexivity|]. split.
    { replace (Z.to_nat (start g + 1)) with (S (Z.to_nat (start g))) by lia.
      apply store_at_prefix. lia. }
    intros i Hi. apply store_at_other; lia.
Qed.

(** The same pass on a vector that is full at its limit. *)
Lemma append_limit (limit gid : Z) (g : groups) :
  vector_ok limit g -> 0 < limit -> start g = limit ->
  append junk limit gid g = LimitReached.
Proof.
  intros (Hstart & Hsize & Hlen & Hlim) Hpos Heq. unfold append, grow.
  assert (Hs : size g = limit) by lia.
  destruct (Z.eqb_spec (start g) (size g)); [|lia].
  destruct (Z.ltb_spec 0 limit); [|lia].
  destruct (Z.ltb_spec (size g) limit); [lia|]. reflexivity.
Qed.

Lemma column_int_row (p : stmt) (id : Z) :
  st_row p = [VInt id] -> sqlite3_column_int (Some p) 0 = to_int id.
Proof. unfold sqlite3_column_int, current_row. intros ->. reflexivity. Qed.

(** The loop of lines 358-383 on the rows [id0 :: ids] of a statement
    that is positioned on [id0]: either the limit is hit, which happens
    when the ids do not all fit under it, or every id is appended. *)
Lemma collect_rows (limit : Z) (ids : list Z) :
  forall (fuel : nat) (p : stmt) (g : groups) (id0 : Z) (rest : list outcome),
    st_row p = [VInt id0] ->
    st_pending p = map gid_row ids ++ rest ->
    rc_of (hd Done rest) <> SQLITE_ROW ->
    (length ids < fuel)%nat ->
    vector_ok limit g ->
    2 * (start g + Z.of_nat (S (length ids))) <= max_cells ->
    let n := Z.of_nat (S (length ids)) in
    exists g' p',
      st_id p' = st_id p /\ vector_ok limit g' /\
      ((0 < limit /\ limit < start g + n) /\
       collect junk fuel limit (Some p) g = Limit g' (Some p') /\
       start g' = limit /\
       firstn (Z.to_nat limit) (groupsp g')
         = firstn (Z.to_nat (start g)) (groupsp g)
             ++ map gid_of (firstn (Z.to_nat (limit - start g)) (id0 :: ids))
       \/
       ~ (0 < limit /\ limit < start g + n) /\
       collect junk fuel limit (Some p) g = Exhausted g' (Some p') /\
       start g' = start g + n /\
       firstn (Z.to_nat (start g')) (groupsp g')
         = firstn (Z.to_nat (start g)) (groupsp g) ++ map gid_of (id0 :: ids)).
Proof.
  induction ids as [|id1 ids IH];
    intros fuel p g id0 rest Hrow Hpend Hrest Hfuel Hok Hroom n;
    (destruct fuel as [|fuel]; [simpl in Hfuel; lia|]);
    cbn [collect]; rewrite (column_int_row p id0 Hrow);
    pose proof Hok as (Hstart & Hsize & Hlen & Hlim).
  - (* the last row *)
    assert (Hdec : (0 < limit /\ start g = limit) \/ ~ (0 < limit /\ start g = limit))
      by lia.
    destruct Hdec as [[Hpos Heq]|Hne].
    + exists g, p. split; [reflexivity|]. split; [exact Hok|]. left.
      rewrite append_limit by assumption.
      subst n. cbn [length]. split; [lia|]. split; [reflexivity|].
      split; [exact Heq|].
      rewrite Heq, Z.sub_diag. cbn [Z.to_nat firstn map]. rewrite app_nil_r.
      reflexivity.
    + destruct (append_appends limit (to_int id0) g Hok) as
        (g1 & Happ & Hs1 & Hok1 & _ & Hpre & _);
        [cbn [length] in Hroom; lia|exact Hne|].
      rewrite Happ. unfold sqlite3_step. rewrite Hpend. cbn [map app].
      exists g1. destruct rest as [|o rest].
      * exists (advance p Done []).
        split; [reflexivity|]. split; [exact Hok1|]. right.
        change (SQLITE_DONE =? SQLITE_ROW) with false. cbv iota.
        subst n. cbn [length]. split; [lia|]. split; [reflexivity|].
        split; [lia|]. rewrite Hs1. exact Hpre.
      * cbn [hd] in Hrest. apply Z.eqb_neq in Hrest. rewrite Hrest.
        exists (advance p o rest).
        split; [reflexivity|]. split; [exact Hok1|]. right.
        subst n. cbn [length]. split; [lia|]. split; [reflexivity|].
        split; [lia|]. rewrite Hs1. exact Hpre.
  - (* a row with rows after it *)
    assert (Hdec : (0 < limit /\ start g = limit) \/ ~ (0 < limit /\ start g = limit))
      by lia.
    destruct Hdec as [[Hpos Heq]|Hne].
    + exists g, p. split; [reflexivity|]. split; [exact Hok|]. left.
      rewrite append_limit by assumption.
      subst n. split; [lia|]. split; [reflexivity|].
      split; [exact Heq|].
      rewrite Heq, Z.sub_diag. cbn [Z.to_nat firstn map]. rewrite app_nil_r.
      reflexivity.
    + destruct (append_appends limit (to_int id0) g Hok) as
        (g1 & Happ & Hs1 & Hok1 & _ & Hpre & _);
        [cbn [length] in Hroom; lia|exact Hne|].
      rewrite Happ. unfold sqlite3_step. rewrite Hpend. cbn [map app].
      unfold gid_row at 1. cbn [rc_of]. rewrite Z.eqb_refl.
      destruct (IH fuel (advance p (Row [VInt id1]) (map gid_row ids ++ rest))
                  g1 id1 rest) as (g' & p' & Hid & Hok' & Hcases);
        [reflexivity | reflexivity | exact Hrest | simpl in Hfuel; lia
        | exact Hok1 | cbn [length] in *; lia |].
      exists g', p'. split; [exact Hid|]. split; [exact Hok'|].
      subst n. cbn [length] in *.
      destruct Hcases as [(Hc & Hcol & Hs' & Hfirst) | (Hc & Hcol & Hs' & Hfirst)].
      * left. split; [lia|]. split; [exact Hcol|]. split; [exact Hs'|].
        rewrite Hfirst, Hs1, Hpre.
        replace (Z.to_nat (limit - start g))
          with (S (Z.to_nat (limit - (start g + 1)))) by lia.
        cbn [firstn map]. rewrite <- app_assoc. reflexivity.
      * right. split; [lia|]. split; [exact Hcol|]. split; [lia|].
        rewrite Hfirst, Hs1, Hpre. cbn [map]. rewrite <- app_assoc.
        reflexivity.
Qed.

Lemma initgroups_dyn_run (s : store) (user : list byte) (gid : Z) (g : groups)
  (limit errno : Z) (w : world) (id0 : Z) (ids : list Z) :
  yields_groups s user gid (id0 :: ids) ->
  exists (p : stmt) (fuel : nat),
    st_row p = [VInt id0] /\
    (exists rest, st_pending p = map gid_row ids ++ rest /\
                  rc_of (hd Done rest) <> SQLITE_ROW) /\
    (length ids < fuel)%nat /\
    fst (_nss_sqlite_initgroups_dyn junk s user gid g limit errno w)
    = finish junk errno (collect junk fuel limit (Some p) g).
Proof.
  intros (sql & rest & Hopen & Hq & Hp & Hb1 & Hb2 & Hres & Hrest).
  unfold _nss_sqlite_initgroups_dyn, sqlite3_open. mrun.
  rewrite Hopen, Z.eqb_refl. mrun. unfold get_query. rewrite Hq.
  unfold sqlite3_prepare. rewrite Hp, Z.eqb_refl. mrun.
  rewrite Z.eqb_refl. mrun. rewrite Hb1, Z.eqb_refl. mrun.
  rewrite Hb2, Z.eqb_refl. mrun.
  unfold sqlite3_step at 1. mrun. rewrite Hres. cbn [map app].
  change (gid_row id0) with (Row [VInt id0]). cbn [rc_of].
  unfold res2nss_status.
  rewrite Z.eqb_refl. mrun. rewrite Z.eqb_refl. mrun.
  unfold advance. cbn [pending_of]. mrun.
  exists {| st_id := S (next_handle w); st_sql := sql;
            st_params := [VText user; VInt gid];
            st_pending := map gid_row ids ++ rest; st_row := [VInt id0] |}.
  exists (S (length (map gid_row ids ++ rest))).
  split; [reflexivity|]. split.
  { exists rest. split; [reflexivity | exact Hrest]. }
  split; [rewrite length_app, length_map; lia|].
  match goal with
  | |- context [collect junk ?f limit ?st g] =>
      destruct (collect junk f limit st g) as [g' [st'|]|g' [st'|]|]
  end; reflexivity.
Qed.


Lemma append_cases (limit id : Z) (g0 : groups) :
  vector_ok limit g0 -> 2 * start g0 <= max_cells ->
  match append junk limit id g0 with
  | Appended g1 =>
      start g1 = start g0 + 1 /\
      Some (size g1) = (if start g0 =? size g0 then spec_grow limit (size g0)
                        else Some (size g0)) /\
      (forall i, (i < Z.to_nat (start g0))%nat ->
                 nth_error (groupsp g1) i = nth_error (groupsp g0) i)
  | LimitReached => start g0 = size g0 /\ 0 < limit /\ size g0 = limit
  | Undefined => False
  end.
Proof.
  intros Hok Hroom.
  assert (Hdec : (0 < limit /\ start g0 = limit) \/ ~ (0 < limit /\ start g0 = limit))
    by lia.
  destruct Hdec as [[Hpos Heq]|Hne].
  - rewrite append_limit by assumption.
    destruct Hok as (Hstart & Hsize & Hlen & Hlim). lia.
  - destruct (append_appends limit id g0 Hok Hroom Hne)
      as (g1 & -> & Hs & _ & Hsz & _ & Hnth).
    auto.
Qed.

(** C5.  On a vector of the specification and with room in the address
    space for the vector to double, every pass of the loop of
    [_nss_sqlite_initgroups_dyn] appends one id and, when the vector is
    full, first grows it by the rule of the specification, or stops at
    the limit when the vector is full at its limit.  The call returns
    TRYAGAIN with ERANGE exactly when the ids of the rows do not all fit
    under the limit; [*start] is then the limit, and the ids that did
    fit are in the vector behind those the caller had put there.
    Otherwise the call succeeds and [*start] has advanced by the number
    of rows. *)
Theorem initgroups_dyn_growth :
  forall (s : store) (user : list byte) (gid : Z) (g : groups)
         (limit errno : Z) (w : world) (id0 : Z) (ids : list Z),
    yields_groups s user gid (id0 :: ids) ->
    vector_ok limit g ->
    2 * (start g + Z.of_nat (length (id0 :: ids))) <= max_cells ->
    let n := Z.of_nat (length (id0 :: ids)) in
    (forall g0 id,
        vector_ok limit g0 -> 2 * start g0 <= max_cells ->
        match append junk limit id g0 with
        | Appended g1 =>
            start g1 = start g0 + 1 /\
            Some (size g1) = (if start g0 =? size g0
                              then spec_grow limit (size g0)
                              else Some (size g0))
        | LimitReached => start g0 = size g0 /\ 0 < limit /\ size g0 = limit
        | Undefined => False
        end) /\
    exists status errno' g',
      fst (_nss_sqlite_initgroups_dyn junk s user gid g limit errno w)
        = Some (status, errno', g') /\
      (status = NSS_STATUS_TRYAGAIN /\ errno' = ERANGE
         <-> 0 < limit /\ limit < start g + n) /\
      (status = NSS_STATUS_TRYAGAIN ->
         start g' = limit /\
         firstn (Z.to_nat limit) (groupsp g')
           = firstn (Z.to_nat (start g)) (groupsp g)
               ++ map gid_of (firstn (Z.to_nat (limit - start g)) (id0 :: ids))) /\
      (status <> NSS_STATUS_TRYAGAIN ->
         status = NSS_STATUS_SUCCESS /\ errno' = errno /\ start g' = start g + n).
Proof.
  intros s user gid g limit errno w id0 ids Hyields Hok Hroom n. split.
  - intros g0 id Hok0 Hroom0.
    pose proof (append_cases limit id g0 Hok0 Hroom0) as H.
    destruct (append junk limit id g0); [|exact H|exact H].
    destruct H as (H1 & H2 & _). auto.
  - destruct (initgroups_dyn_run s user gid g limit errno w id0 ids Hyields)
      as (p & fuel & Hrow & (rest & Hpend & Hrest) & Hfuel & Hrun).
    destruct (collect_rows limit ids fuel p g id0 rest Hrow Hpend Hrest Hfuel Hok)
      as (g' & p' & _ & Hok' & Hcases); [cbn [length] in Hroom; lia|].
    rewrite Hrun.
    destruct Hcases as [(Hc & -> & Hs & Hfirst) | (Hc & -> & Hs & Hfirst)];
      cbn [finish].
    + exists NSS_STATUS_TRYAGAIN, ERANGE, g'. subst n.
      split; [reflexivity|]. split; [tauto|]. split; [auto|].
      intros H. exfalso. apply H. reflexivity.
    + eexists _, _, _. split; [reflexivity|]. cbn [start]. subst n. split.
      * split; [intros [H _]; discriminate H | intros H; contradiction].
      * split; [intros H; discriminate H|]. intros _. auto.
Qed.


End InitGroupsProofs.

(** ** Every handle is released once, by the scope that acquired it *)

Lemma step_keeps_id (p : stmt) :
  exists p', snd (sqlite3_step (Some p)) = Some p' /\ st_id p' = st_id p.
Proof.
  unfold sqlite3_step. destruct (st_pending p) as [|o rest];
    eexists; split; reflexivity.
Qed.

Lemma gather_keeps_id (fuel : nat) :
  forall (p : stmt) (acc : list (list byte)),
  exists p', snd (gather fuel (Some p) acc) = Some p' /\ st_id p' = st_id p.
Proof.
  induction fuel as [|fuel IH]; intros p acc; cbn [gather].
  - exists p. split; reflexivity.
  - destruct (step_keeps_id p) as (p1 & Hstep & Hid).
    destruct (sqlite3_step (Some p)) as [res st]. cbn [snd] in Hstep. subst st.
    destruct (res =? SQLITE_ROW).
    + destruct (IH p1 (acc ++ [strdup (sqlite3_column_text (Some p) 0)]))
        as (p' & Hg & Hid').
      exists p'. split; [exact Hg | congruence].
    + exists p1. split; [reflexivity | exact Hid].
Qed.








Section Handles.

Variable s : store.








End Handles.


(** The lookup by name on a store without the text of "get_users":
    [get_users] calls [sqlite3_close] on the connection 0 while the
    statement 1 of the lookup is prepared on it; the call is refused and
    the connection stays open until line 218 closes it. *)
Example getgrnam_r_close_refused :
  let s := without_query demo_store "get_users" in
  let out := _nss_sqlite_getgrnam_r s spec_fill_group_sql (spec_fill_group s)
               (text "staff") 4096 100 0 world_init in
  r_status (fst out) = NSS_STATUS_UNAVAIL /\
  events (snd out)
  = [EvOpen 0; EvPrepare (Some 0%nat) 1; EvClose 0; EvFinalize 1; EvClose 0] /\
  replay no_handles (firstn 3 (events (snd out)))
  = Some {| connections := [0%nat]; statements := [(1%nat, Some 0%nat)] |} /\
  replay no_handles (events (snd out)) = Some no_handles.
Proof. vm_compute. repeat split; reflexivity. Qed.

(** ** The enumeration cursor *)

Section Cursor.

Variable s : store.
Variable fill_group_sql : option stmt -> group.
Variable fill_group : option nat -> Z -> Z -> group -> Z -> M reply.

Lemma setgrent_success_releases_lock (d : grent_data) (w : world) :
  pDb d = None ->
  fst (fst (_nss_sqlite_setgrent s d w)) = NSS_STATUS_SUCCESS ->
  lock_depth (snd (_nss_sqlite_setgrent s d w)) = lock_depth w.
Proof.
  intros Hdb. unfold _nss_sqlite_setgrent. rewrite Hdb. crun.
  unfold sqlite3_open. crun.
  destruct (open_rc s =? SQLITE_OK); crun; [|discriminate].
  unfold get_query. destruct (query_text s "setgrent") as [sql|]; crun;
    [|discriminate].
  unfold sqlite3_prepare.
  destruct (prepare_rc s sql =? SQLITE_OK) eqn:E; crun.
  - reflexivity.
  - rewrite E. crun. discriminate.
Qed.

(** C10 fails on the error paths of [_nss_sqlite_setgrent]: whenever it
    returns anything but SUCCESS (lines 71, 76 and 83), the mutex it
    locked at line 66 is still held, one level deeper than before the
    call. *)
Theorem setgrent_error_keeps_lock :
  forall (d : grent_data) (w : world),
    fst (fst (_nss_sqlite_setgrent s d w)) <> NSS_STATUS_SUCCESS ->
    lock_depth (snd (_nss_sqlite_setgrent s d w)) = S (lock_depth w).
Proof.
  intros d w. unfold _nss_sqlite_setgrent. crun.
  destruct (pDb d) as [db|]; crun; [intros H; exfalso; apply H; reflexivity|].
  unfold sqlite3_open. crun.
  destruct (open_rc s =? SQLITE_OK); crun; [|reflexivity].
  unfold get_query. destruct (query_text s "setgrent") as [sql|]; crun;
    [|reflexivity].
  unfold sqlite3_prepare.
  destruct (prepare_rc s sql =? SQLITE_OK) eqn:E; crun.
  - intros H; exfalso; apply H; reflexivity.
  - rewrite E. crun. reflexivity.
Qed.

Lemma step_at_end (p : stmt) :
  hd Done (st_pending p) = Done ->
  sqlite3_step (Some p) = (SQLITE_DONE, Some (advance p Done (tl (st_pending p)))).
Proof.
  unfold sqlite3_step. destruct (st_pending p) as [|o rest]; simpl.
  - reflexivity.
  - intros ->. reflexivity.
Qed.

(** What [_nss_sqlite_getgrent_r] does when it advances the statement,
    be it directly or after a retry that failed again, and there is no
    row left: the statement is finalized and the connection closed, [pDb]
    is set to NULL and the mutex is unlocked once; [try_again] and the
    cached entry are as they were.  [w1] is the world in which line 136
    is reached: locked, and after the retry if there was one. *)
Lemma getgrent_r_at_end :
  forall (d : grent_data) (buf buflen errno : Z) (w : world) (db : nat) (p : stmt),
    pDb d = Some db ->
    pSt d = Some p ->
    hd Done (st_pending p) = Done ->
    let retry := fill_group (Some db) buf buflen (entry d) errno (snd (lock w)) in
    (try_again d = true ->
     r_status (fst retry) = NSS_STATUS_TRYAGAIN /\ r_errno (fst retry) = ERANGE) ->
    let w1 := if try_again d then snd retry else snd (lock w) in
    exists r,
      _nss_sqlite_getgrent_r s fill_group_sql fill_group d buf buflen errno w
      = (r,
         set_pDb (set_pSt d (Some (advance p Done (tl (st_pending p))))) None,
         {| events := events w1 ++ [EvFinalize (st_id p); EvClose db];
            next_handle := next_handle w1;
            lock_depth := pred (lock_depth w1) |}) /\
      r_status r = NSS_STATUS_NOTFOUND.
Proof.
  intros d buf buflen errno w db p Hdb Hst Hend retry Hretry w1.
  assert (Hfetch : forall e wl,
             fetch fill_group_sql fill_group d buf buflen e wl
             = (failed NSS_STATUS_NOTFOUND e,
                set_pDb (set_pSt d (Some (advance p Done (tl (st_pending p))))) None,
                {| events := events wl ++ [EvFinalize (st_id p); EvClose db];
                   next_handle := next_handle wl;
                   lock_depth := pred (lock_depth wl) |})).
  { intros e wl. unfold fetch. rewrite Hst, (step_at_end p Hend). crun.
    rewrite Hdb. unfold res2nss_status.
    change (SQLITE_DONE =? SQLITE_ROW) with false. crun.
    change (SQLITE_DONE =? SQLITE_DONE) with true.
    change (NSS_STATUS_NOTFOUND =? NSS_STATUS_SUCCESS) with false. crun.
    rewrite <- app_assoc. reflexivity. }
  subst w1 retry. unfold _nss_sqlite_getgrent_r. crun. rewrite Hdb. crun.
  unfold lock in *. cbn [snd] in *.
  destruct (try_again d) eqn:Hta.
  - destruct (Hretry eq_refl) as [Hs He]. rewrite ?Hdb. unfold bind.
    destruct (fill_group _ _ _ _ _ _) as [m wm]. cbn [fst snd] in *.
    rewrite Hs, He, !Z.eqb_refl. cbn [negb orb]. rewrite Hfetch.
    eexists. split; reflexivity.
  - rewrite Hfetch. eexists. split; reflexivity.
Qed.

Lemma setgrent_on_closed (d : grent_data) (w : world) (sql : string) :
  pDb d = None ->
  open_rc s = SQLITE_OK ->
  query_text s "setgrent" = Some sql ->
  prepare_rc s sql = SQLITE_OK ->
  _nss_sqlite_setgrent s d w
  = (NSS_STATUS_SUCCESS,
     {| pDb := Some (next_handle w);
        pSt := Some {| st_id := S (next_handle w); st_sql := sql; st_params := [];
                       st_pending := results s sql []; st_row := [] |};
        try_again := try_again d; entry := entry d |},
     {| events := events w ++ [EvOpen (next_handle w);
                               EvPrepare (Some (next_handle w)) (S (next_handle w))];
        next_handle := S (S (next_handle w));
        lock_depth := lock_depth w |}).
Proof.
  intros Hdb Hopen Hq Hp. unfold _nss_sqlite_setgrent. rewrite Hdb. crun.
  unfold sqlite3_open. crun. rewrite Hopen, Z.eqb_refl. crun.
  unfold get_query. rewrite Hq. unfold sqlite3_prepare.
  rewrite Hp, Z.eqb_refl. crun. rewrite Z.eqb_refl. crun.
  rewrite <- app_assoc. reflexivity.
Qed.

Lemma getgrent_r_retry_eq (d : grent_data) (buf buflen errno : Z) (w : world)
  (db : nat) :
  pDb d = Some db ->
  try_again d = true ->
  let m := fill_group (Some db) buf buflen (entry d) errno (snd (lock w)) in
  ~ (r_status (fst m) = NSS_STATUS_TRYAGAIN /\ r_errno (fst m) = ERANGE) ->
  _nss_sqlite_getgrent_r s fill_group_sql fill_group d buf buflen errno w
  = (fst m, set_try_again d false, snd (unlock (snd m))).
Proof.
  intros Hdb Hta m Hm. subst m.
  unfold _nss_sqlite_getgrent_r. crun. rewrite Hdb. crun. rewrite Hta.
  rewrite ?Hdb. unfold lock in Hm. cbn [snd] in Hm. unfold bind.
  destruct (fill_group _ _ _ _ _ _) as [m w1]. cbn [fst snd] in Hm |- *.
  destruct (Z.eqb_spec (r_status m) NSS_STATUS_TRYAGAIN) as [Es|Es];
    destruct (Z.eqb_spec (r_errno m) ERANGE) as [Ee|Ee];
    cbn [negb orb]; crun; try reflexivity.
  exfalso. apply Hm. split; assumption.
Qed.

(** C9 fails after a retry that failed again.  When the cached entry
    still does not fit and the statement has no row left,
    [_nss_sqlite_getgrent_r] returns NOTFOUND and sets [pDb] to NULL, but
    lines 137-141 leave [try_again] set and the entry cached: the state
    is not the closed one.  On a store that opens and prepares, the
    cursor that is opened next is not a cursor from scratch: the first
    [_nss_sqlite_getgrent_r] on it hands the entry of the enumeration
    that has ended to [fill_group] and returns its answer, and the new
    statement is not stepped. *)
Theorem getgrent_r_end_of_set_keeps_retry :
  forall (d : grent_data) (buf buflen errno : Z) (w : world) (db : nat) (p : stmt),
    pDb d = Some db ->
    pSt d = Some p ->
    hd Done (st_pending p) = Done ->
    try_again d = true ->
    let retry := fst (fill_group (Some db) buf buflen (entry d) errno
                        (snd (lock w))) in
    r_status retry = NSS_STATUS_TRYAGAIN ->
    r_errno retry = ERANGE ->
    let out := _nss_sqlite_getgrent_r s fill_group_sql fill_group
                 d buf buflen errno w in
    let d' := snd (fst out) in
    r_status (fst (fst out)) = NSS_STATUS_NOTFOUND /\
    pDb d' = None /\
    try_again d' = true /\
    entry d' = entry d /\
    (forall (sql : string) (buf' buflen' errno' : Z),
        open_rc s = SQLITE_OK ->
        query_text s "setgrent" = Some sql ->
        prepare_rc s sql = SQLITE_OK ->
        let out2 := _nss_sqlite_setgrent s d' (snd out) in
        let m := fill_group (pDb (snd (fst out2))) buf' buflen' (entry d) errno'
                   (snd (lock (snd out2))) in
        ~ (r_status (fst m) = NSS_STATUS_TRYAGAIN /\ r_errno (fst m) = ERANGE) ->
        let out3 := _nss_sqlite_getgrent_r s fill_group_sql fill_group
                      (snd (fst out2)) buf' buflen' errno' (snd out2) in
        fst (fst out2) = NSS_STATUS_SUCCESS /\
        fst (fst out3) = fst m /\
        exists q, pSt (snd (fst out3)) = Some q /\
                  st_pending q = results s sql [] /\ st_row q = []).
Proof.
  intros d buf buflen errno w db p Hdb Hst Hend Hta retry Hs He out d'.
  destruct (getgrent_r_at_end d buf buflen errno w db p Hdb Hst Hend)
    as (r & Hout & Hr).
  { intros _. split; [exact Hs | exact He]. }
  subst d' out. rewrite Hout. cbn [fst snd]. crun.
  split; [exact Hr|]. split; [reflexivity|]. split; [exact Hta|].
  split; [reflexivity|].
  intros sql buf' buflen' errno' Hopen Hq Hp.
  match goal with
  | |- context [_nss_sqlite_setgrent s ?d1 ?w1] =>
      rewrite (setgrent_on_closed d1 w1 sql eq_refl Hopen Hq Hp)
  end.
  cbn [fst snd pDb]. intros Hm.
  match goal with
  | |- context [_nss_sqlite_getgrent_r _ _ _ ?d2 _ _ _ ?w2] =>
      match type of Hm with
      | context [fill_group (Some ?h) _ _ _ _ _] =>
          rewrite (getgrent_r_retry_eq d2 buf' buflen' errno' w2 h
                     eq_refl Hta Hm)
      end
  end.
  crun. split; [reflexivity|]. split; [reflexivity|].
  eexists. repeat split; reflexivity.
Qed.

(** The retry path, for any marshaler.  When the cached entry now fits,
    it is delivered, the flag is cleared and the statement is not
    advanced. *)
Lemma getgrent_r_retry_delivers :
  forall (d : grent_data) (buf buflen errno : Z) (w : world) (db : nat),
    pDb d = Some db ->
    try_again d = true ->
    let marshal := fst (fill_group (Some db) buf buflen (entry d) errno
                          (snd (lock w))) in
    r_status marshal = NSS_STATUS_SUCCESS ->
    let out := fst (_nss_sqlite_getgrent_r s fill_group_sql fill_group
                      d buf buflen errno w) in
    fst out = marshal /\ snd out = set_try_again d false.
Proof.
  intros d buf buflen errno w db Hdb Hta marshal Hok out. subst out.
  unfold _nss_sqlite_getgrent_r. crun. rewrite Hdb. crun. rewrite Hta.
  rewrite ?Hdb.
  subst marshal. unfold lock in Hok. cbn [snd] in Hok. unfold bind.
  destruct (fill_group _ _ _ _ _ _) as [m w1]. cbn [fst] in Hok.
  rewrite Hok. change (NSS_STATUS_SUCCESS =? NSS_STATUS_TRYAGAIN) with false.
  cbn [negb orb]. crun. auto.
Qed.

(** C1 fails when the retry fails again, for any marshaler.  When the
    cached entry still does not fit, the call neither returns nor leaves
    the state alone: it goes on to line 136, advances the statement and
    replaces the cached entry by the next row: the entry it had cached is
    lost to the enumeration. *)
Theorem getgrent_r_retry_advances :
  forall (d : grent_data) (buf buflen errno : Z) (w : world)
         (db : nat) (p : stmt) (o : row) (rest : list outcome),
    pDb d = Some db ->
    pSt d = Some p ->
    try_again d = true ->
    st_pending p = Row o :: rest ->
    let marshal := fst (fill_group (Some db) buf buflen (entry d) errno
                          (snd (lock w))) in
    r_status marshal = NSS_STATUS_TRYAGAIN ->
    r_errno marshal = ERANGE ->
    let d' := snd (fst (_nss_sqlite_getgrent_r s fill_group_sql fill_group
                          d buf buflen errno w)) in
    pSt d' = Some (advance p (Row o) rest) /\
    entry d' = fill_group_sql (Some (advance p (Row o) rest)).
Proof.
  intros d buf buflen errno w db p o rest Hdb Hst Hta Hpend marshal Hs He d'.
  subst d'. unfold _nss_sqlite_getgrent_r. crun. rewrite Hdb. crun. rewrite Hta.
  rewrite ?Hdb.
  subst marshal. unfold lock in Hs, He. cbn [snd] in Hs, He.
  unfold fetch, res2nss_status. rewrite Hst. unfold sqlite3_step.
  rewrite Hpend. cbn [rc_of]. rewrite Z.eqb_refl. unfold bind.
  destruct (fill_group (Some db) buf buflen (entry d) errno _) as [m w1].
  cbn [fst] in Hs, He.
  rewrite Hs, He, !Z.eqb_refl. cbn [negb orb]. crun.
  rewrite ?Hdb, ?Z.eqb_refl. cbn [negb].
  destruct (fill_group _ _ _ _ _ _) as [m2 w2].
  destruct ((r_status m2 =? NSS_STATUS_TRYAGAIN) && (r_errno m2 =? ERANGE));
    crun; auto.
Qed.

Lemma endgrent_releases_lock (d : grent_data) (w : world) :
  lock_depth (snd (_nss_sqlite_endgrent d w)) = lock_depth w.
Proof.
  unfold _nss_sqlite_endgrent. crun.
  destruct (pDb d) as [db|]; crun; [destruct (pSt d); crun|]; reflexivity.
Qed.

(** C8 fails on the fetch path.  When the statement yields a row and
    [fill_group] answers UNAVAIL for it, [_nss_sqlite_getgrent_r] returns
    SUCCESS (line 155), and hands the caller whatever [fill_group] left in
    the buffer. *)
Theorem getgrent_r_success_on_failed_marshal :
  forall (d : grent_data) (buf buflen errno : Z) (w : world)
         (db : nat) (p : stmt) (o : row) (rest : list outcome),
    pDb d = Some db ->
    pSt d = Some p ->
    try_again d = false ->
    st_pending p = Row o :: rest ->
    let marshal :=
      fst (fill_group (Some db) buf buflen
             (fill_group_sql (Some (advance p (Row o) rest))) errno
             (snd (lock w))) in
    r_status marshal = NSS_STATUS_UNAVAIL ->
    let r := fst (fst (_nss_sqlite_getgrent_r s fill_group_sql fill_group
                         d buf buflen errno w)) in
    r_status r = NSS_STATUS_SUCCESS /\
    r_gbuf r = r_gbuf marshal /\ r_writes r = r_writes marshal.
Proof.
  intros d buf buflen errno w db p o rest Hdb Hst Hta Hpend marshal Hfail r.
  subst r. unfold _nss_sqlite_getgrent_r. crun. rewrite Hdb. crun.
  rewrite Hta. unfold fetch. rewrite Hst. unfold sqlite3_step. rewrite Hpend.
  crun. rewrite Hdb. unfold res2nss_status. cbn [rc_of].
  rewrite Z.eqb_refl. crun. rewrite Z.eqb_refl. crun.
  subst marshal. unfold lock in Hfail. cbn [snd] in Hfail.
  unfold bind.
  destruct (fill_group _ _ _ _ _ _) as [m w1]. cbn [fst] in Hfail.
  rewrite Hfail.
  change (NSS_STATUS_UNAVAIL =? NSS_STATUS_TRYAGAIN) with false.
  cbn [andb]. crun. auto.
Qed.

End Cursor.

(** A whole enumeration in which the retry fails once.  On the store with
    the groups staff (100) and users (200), two calls with a buffer of 10
    bytes and two with a buffer of 4096 bytes go as follows: the first
    call fetches staff and asks for a larger buffer; the second one,
    whose buffer is still too small, falls through to line 136, advances
    the statement and replaces the cached staff by users; the third call
    delivers users; the fourth reports the end of the set.  The group
    staff is never delivered. *)
Example getgrent_r_retry_skips_record :
  let c0 := (grent_data_init, world_init) in
  let '(r1, d1, w1) := next_entry demo_store 10 c0 in
  let '(r2, d2, w2) := next_entry demo_store 10 (d1, w1) in
  let '(r3, d3, w3) := next_entry demo_store 4096 (d2, w2) in
  let '(r4, d4, w4) := next_entry demo_store 4096 (d3, w3) in
  (r_status r1, r_errno r1, try_again d1, gr_gid (entry d1))
    = (NSS_STATUS_TRYAGAIN, ERANGE, true, 100) /\
  (r_status r2, r_errno r2, try_again d2, gr_gid (entry d2))
    = (NSS_STATUS_TRYAGAIN, ERANGE, true, 200) /\
  (r_status r3, option_map gbuf_gid (r_gbuf r3)) = (NSS_STATUS_SUCCESS, Some 200) /\
  r_status r4 = NSS_STATUS_NOTFOUND.
Proof. vm_compute. repeat split; reflexivity. Qed.

(** A whole enumeration that ends on a failed retry, and the one after
    it.  Three calls with a buffer of 10 bytes fetch staff, lose it for
    users and reach the end of the rows with users cached and [try_again]
    set.  With a buffer of 4096 bytes the next call, which opens the
    enumeration again, delivers users without stepping the new
    statement; the calls after it deliver staff and users: the group
    users is delivered twice in the second enumeration. *)
Example getgrent_r_end_of_set_redelivers :
  let c0 := (grent_data_init, world_init) in
  let '(r1, d1, w1) := next_entry demo_store 10 c0 in
  let '(r2, d2, w2) := next_entry demo_store 10 (d1, w1) in
  let '(r3, d3, w3) := next_entry demo_store 10 (d2, w2) in
  let '(r4, d4, w4) := next_entry demo_store 4096 (d3, w3) in
  let '(r5, d5, w5) := next_entry demo_store 4096 (d4, w4) in
  let '(r6, d6, w6) := next_entry demo_store 4096 (d5, w5) in
  let '(r7, d7, w7) := next_entry demo_store 4096 (d6, w6) in
  (r_status r3, pDb d3, try_again d3, gr_gid (entry d3))
    = (NSS_STATUS_NOTFOUND, None, true, 200) /\
  (r_status r4, option_map gbuf_gid (r_gbuf r4), option_map st_pending (pSt d4))
    = (NSS_STATUS_SUCCESS, Some 200, Some [Row staff_row; Row users_row; Done]) /\
  (r_status r5, option_map gbuf_gid (r_gbuf r5)) = (NSS_STATUS_SUCCESS, Some 100) /\
  (r_status r6, option_map gbuf_gid (r_gbuf r6)) = (NSS_STATUS_SUCCESS, Some 200) /\
  r_status r7 = NSS_STATUS_NOTFOUND.
Proof. vm_compute. repeat split; reflexivity. Qed.

(** The lock that a failed [_nss_sqlite_setgrent] keeps also outlives the
    [_nss_sqlite_getgrent_r] that called it. *)
Example getgrent_r_keeps_lock_after_failed_open :
  let out := next_entry (failing_open demo_store 14) 4096
               (grent_data_init, world_init) in
  r_status (fst (fst out)) = NSS_STATUS_UNAVAIL /\
  lock_depth (snd out) = 1%nat.
Proof. vm_compute. split; reflexivity. Qed.

(** * Further properties *)

(** ** get_users: failures, its statement, the layout of the buffer *)

Section GetUsersMore.

Variable s : store.

(** X1.  When the statement cannot be prepared, the group id cannot be bound,
    or the first step reports neither a row nor the end of the rows,
    [get_users] returns UNAVAIL, leaves the caller's [errno] alone and
    stores nothing in the buffer (lines 421-432 and 436-450). *)
Theorem get_users_store_failure :
  forall (pDb : option nat) (gid buffer buflen errno : Z) (w : world) (sql : string),
    get_query s pDb "get_users" = Some sql ->
    prepare_rc s sql <> SQLITE_OK \/
    bind_rc s sql 1 <> SQLITE_OK \/
    (rc_of (hd Done (results s sql [VInt gid])) <> SQLITE_ROW /\
     rc_of (hd Done (results s sql [VInt gid])) <> SQLITE_DONE) ->
    fst (get_users s pDb gid buffer buflen errno w)
    = {| f_status := NSS_STATUS_UNAVAIL; f_errno := errno; f_writes := [] |}.
Proof.
  intros pDb gid buffer buflen errno w sql Hq Hfail.
  unfold get_users. rewrite Hq. unfold sqlite3_prepare.
  destruct (Z.eqb_spec (prepare_rc s sql) SQLITE_OK) as [Hp|Hp]; mrun.
  - rewrite Z.eqb_refl. mrun.
    destruct (Z.eqb_spec (bind_rc s sql 1) SQLITE_OK) as [Hb|Hb]; mrun;
      [|reflexivity].
    destruct Hfail as [H|[H|[Hrow Hdone]]]; [contradiction|contradiction|].
    unfold sqlite3_step. mrun.
    destruct (results s sql [VInt gid]) as [|o rest]; cbn [hd] in Hrow, Hdone.
    + exfalso. apply Hdone. reflexivity.
    + apply Z.eqb_neq in Hrow, Hdone. rewrite Hrow. mrun. rewrite Hdone.
      reflexivity.
  - apply Z.eqb_neq in Hp. rewrite Hp. mrun. reflexivity.
Qed.

(** X2.  Whatever the store does, once the text of its query is there
    [get_users] releases what it acquires: it finalizes the statement it
    prepared, once, and touches no other handle; when the statement
    cannot be prepared it acquires and releases nothing. *)
Theorem get_users_statement_balanced :
  forall (pDb : option nat) (gid buffer buflen errno : Z) (w : world) (sql : string),
    get_query s pDb "get_users" = Some sql ->
    events (snd (get_users s pDb gid buffer buflen errno w))
    = events w ++ (if prepare_rc s sql =? SQLITE_OK
                   then [EvPrepare pDb (next_handle w); EvFinalize (next_handle w)]
                   else []).
Proof.
  intros pDb gid buffer buflen errno w sql Hq.
  unfold get_users. rewrite Hq. unfold sqlite3_prepare.
  destruct (prepare_rc s sql =? SQLITE_OK) eqn:Hp; mrun.
  - rewrite Z.eqb_refl. mrun.
    destruct (bind_rc s sql 1 =? SQLITE_OK); mrun;
      [|rewrite <- app_assoc; reflexivity].
    match goal with
    | |- context [sqlite3_step (Some ?p)] =>
        destruct (step_keeps_id p) as (p1 & Hstep & Hid);
        destruct (sqlite3_step (Some p)) as [res st]
    end.
    cbn [snd] in Hstep. subst st. cbn [st_id] in Hid.
    destruct (res =? SQLITE_ROW); mrun.
    + match goal with
      | |- context [gather ?f (Some p1) ?acc] =>
          destruct (gather_keeps_id f p1 acc) as (p2 & Hg & Hid2);
          destruct (gather f (Some p1) acc) as [members st]
      end.
      cbn [snd] in Hg. subst st. mrun. rewrite Hid2, Hid, <- app_assoc.
      reflexivity.
    + rewrite Hid.
      destruct (res =? SQLITE_DONE); [destruct (buflen <? sizeof_ptr)|];
        mrun; rewrite <- app_assoc; reflexivity.
  - rewrite Hp. mrun. rewrite app_nil_r. reflexivity.
Qed.

(** X3.  A step that fails after the first member row is not reported: the
    loop of lines 457-467 ends as it does at the end of the rows, and
    [get_users] packs the members it has read and returns the status of
    the packing. *)
Theorem get_users_ignores_late_error :
  forall (pDb : option nat) (gid buffer buflen errno : Z) (w : world)
         (sql : string) (n0 : list byte) (names : list (list byte))
         (rc : Z) (rest : list outcome),
    get_query s pDb "get_users" = Some sql ->
    prepare_rc s sql = SQLITE_OK ->
    bind_rc s sql 1 = SQLITE_OK ->
    results s sql [VInt gid] = map member_row (n0 :: names) ++ Fail rc :: rest ->
    rc <> SQLITE_ROW ->
    fst (get_users s pDb gid buffer buflen errno w)
    = pack_members buffer buflen errno (map strdup (n0 :: names)).
Proof.
  intros pDb gid buffer buflen errno w sql n0 names rc rest Hq Hp Hb Hres Hrc.
  rewrite (get_users_packs s pDb gid buffer buflen errno w sql n0 names
             (Fail rc :: rest) Hq Hp Hb Hres); [reflexivity|].
  exact Hrc.
Qed.

(** X4.  The branch of lines 436-448 for a query without rows gives what the
    packing phase gives for an empty member list. *)
Theorem get_users_zero_rows_as_packing :
  forall (pDb : option nat) (gid buffer buflen errno : Z) (w : world) (sql : string),
    get_query s pDb "get_users" = Some sql ->
    prepare_rc s sql = SQLITE_OK ->
    bind_rc s sql 1 = SQLITE_OK ->
    hd Done (results s sql [VInt gid]) = Done ->
    fst (get_users s pDb gid buffer buflen errno w)
    = pack_members buffer buflen errno [].
Proof.
  intros pDb gid buffer buflen errno w sql Hq Hp Hb Hz.
  unfold get_users. rewrite Hq.
  unfold sqlite3_prepare. rewrite Hp, Z.eqb_refl. mrun.
  rewrite Hb, Z.eqb_refl. mrun.
  match goal with
  | |- context [sqlite3_step (Some ?p)] =>
      pose proof (zero_rows_step p Hz) as Hstep;
      destruct (sqlite3_step (Some p)) as [res pSt]
  end.
  simpl in Hstep. subst res.
  change (SQLITE_DONE =? SQLITE_ROW) with false.
  rewrite Z.eqb_refl. mrun.
  unfold pack_members. cbn [length].
  change (to_int (to_size_t (to_size_t (Z.of_nat 0 + 1) * sizeof_ptr))) with 8.
  change (to_size_t 8) with 8. change sizeof_ptr with 8.
  destruct (Z.ltb_spec buflen 8); destruct pSt; mrun; reflexivity.
Qed.

End GetUsersMore.

Lemma pointer_area_size (members : list (list byte)) :
  (Z.of_nat (length members) + 1) * sizeof_ptr <= INT_MAX ->
  to_int (to_size_t (to_size_t (Z.of_nat (length members) + 1) * sizeof_ptr))
  = (Z.of_nat (length members) + 1) * sizeof_ptr.
Proof.
  intros Hcount. unfold sizeof_ptr, INT_MAX in *.
  rewrite (to_size_t_small (Z.of_nat (length members) + 1))
    by (unfold SIZE_MAX; lia).
  rewrite to_size_t_small by (unfold SIZE_MAX; lia).
  apply to_int_small. unfold INT_MAX. lia.
Qed.

(** X5.  The buffer after a packing that succeeds, for the records the code's
    [int] variables can measure: the pointers in the order of the
    members, the NULL slot, the strings in the same order, one behind the
    other and each with its terminator, and then the bytes the buffer had
    there before (lines 488-502). *)
Theorem pack_members_layout :
  forall (base buflen errno : Z) (members : list (list byte)) (mem : list byte),
    Z.of_nat (length mem) = buflen ->
    buflen <= SIZE_MAX ->
    (Z.of_nat (length members) + 1) * sizeof_ptr <= INT_MAX ->
    fits_int members ->
    (Z.of_nat (length members) + 1) * sizeof_ptr + string_bytes members <= buflen ->
    let pointer_table_size := (Z.of_nat (length members) + 1) * sizeof_ptr in
    apply_writes (f_writes (pack_members base buflen errno members)) mem
    = ptr_bytes base (offsets pointer_table_size members)
        ++ le_split 8 NULL
        ++ str_bytes members
        ++ skipn (Z.to_nat (pointer_table_size + string_bytes members)) mem.
Proof.
  intros base buflen errno members mem Hmem Htop Hcount Hfits Hroom pts.
  pose proof (string_bytes_nonneg members) as Hsb.
  assert (Hpts : (Z.of_nat (length members) + 1) * sizeof_ptr = pts) by reflexivity.
  assert (Hpos : 0 < pts <= INT_MAX) by (subst pts; unfold sizeof_ptr in *; lia).
  unfold pack_members. rewrite pointer_area_size, Hpts by assumption.
  rewrite (to_size_t_small pts) by (unfold INT_MAX, SIZE_MAX in *; lia).
  destruct (Z.ltb_spec buflen pts) as [Hlt|Hge]; [lia|].
  rewrite (to_size_t_small (buflen - pts)) by lia.
  set (np := (8 * (length members + 1))%nat).
  assert (Hnp : Z.of_nat np = pts) by (subst np pts; unfold sizeof_ptr; lia).
  rewrite <- (firstn_skipn np mem) at 1.
  pose proof (pack_layout base errno members Hfits 0 pts (buflen - pts)
                [] (firstn np mem) [] (skipn np mem)) as HL.
  cbn [app] in HL. rewrite app_nil_r in HL. rewrite HL; try lia.
  - rewrite skipn_skipn. repeat f_equal. lia.
  - reflexivity.
  - rewrite length_firstn. lia.
  - rewrite length_firstn. lia.
  - rewrite length_skipn. lia.
Qed.

(** X6.  No store of the packing phase straddles the end of the pointer area:
    each lies in the pointer area or in what follows it up to the end of
    the buffer, also when the packing fails half way. *)
Theorem pack_members_regions :
  forall (base buflen errno : Z) (members : list (list byte)),
    0 <= buflen <= SIZE_MAX ->
    (Z.of_nat (length members) + 1) * sizeof_ptr <= INT_MAX ->
    fits_int members ->
    let pointer_table_size := (Z.of_nat (length members) + 1) * sizeof_ptr in
    Forall (fun w => within 0 pointer_table_size w \/
                     within pointer_table_size buflen w)
           (f_writes (pack_members base buflen errno members)).
Proof.
  intros base buflen errno members Hlen Hcount Hfits pts.
  assert (Hpts : (Z.of_nat (length members) + 1) * sizeof_ptr = pts) by reflexivity.
  assert (Hpos : 0 < pts <= INT_MAX) by (subst pts; unfold sizeof_ptr in *; lia).
  unfold pack_members. rewrite pointer_area_size, Hpts by assumption.
  rewrite (to_size_t_small pts) by (unfold INT_MAX, SIZE_MAX in *; lia).
  destruct (Z.ltb_spec buflen pts) as [Hlt|Hge]; [constructor|].
  rewrite (to_size_t_small (buflen - pts)) by lia.
  eapply Forall_impl;
    [|apply (pack_writes base errno members Hfits 0 pts (buflen - pts)); lia].
  intros w [Hw|Hw]; [right|left]; unfold within in *; subst pts;
    unfold sizeof_ptr in *; lia.
Qed.

(** ** The lookups and _nss_sqlite_initgroups_dyn: what they acquire and release *)

(** X7.  When the store fails a lookup before its first step, the lookup
    returns UNAVAIL without marshaling anything: the caller's [errno],
    [struct group] and buffer are as they were; the connection it opened
    is closed once, and so is the statement if it was prepared (lines
    179-205 and 245-271). *)
Theorem lookup_setup_failure :
  forall (s : store) (fill_group_sql : option stmt -> group)
         (fill_group : option nat -> Z -> Z -> group -> Z -> M reply)
         (query : string) (param : value) (buf buflen errno : Z) (w : world),
    setup_fails s query [1] ->
    let out := lookup s fill_group_sql fill_group query param buf buflen errno w in
    fst out = failed NSS_STATUS_UNAVAIL errno /\
    events (snd out)
    = events w ++ opened_and_closed (next_handle w) (prepares s query).
Proof.
  intros s fsql fg query param buf buflen errno w Hfail out. subst out.
  unfold lookup, sqlite3_open, prepares, opened_and_closed, get_query. mrun.
  destruct (Z.eqb_spec (open_rc s) SQLITE_OK) as [Ho|Ho]; mrun.
  2: { split; [reflexivity|]. rewrite <- app_assoc. reflexivity. }
  destruct Hfail as [Hfail|Hfail]; [contradiction|].
  destruct (query_text s query) as [sql|]; mrun.
  2: { split; [reflexivity|]. rewrite <- app_assoc. reflexivity. }
  unfold sqlite3_prepare.
  destruct (Z.eqb_spec (prepare_rc s sql) SQLITE_OK) as [Hp|Hp]; mrun.
  - rewrite Z.eqb_refl. mrun.
    destruct Hfail as [Hfail|Hfail]; [contradiction|].
    apply Exists_cons in Hfail. destruct Hfail as [Hb|Hb];
      [|apply Exists_nil in Hb; contradiction].
    apply Z.eqb_neq in Hb. rewrite Hb. mrun.
    split; [reflexivity|]. rewrite <- !app_assoc. reflexivity.
  - apply Z.eqb_neq in Hp. rewrite Hp. mrun.
    split; [reflexivity|]. rewrite <- !app_assoc. reflexivity.
Qed.

(** X8.  When the statement of a lookup yields a row, the lookup answers with
    what [fill_group] answers for that row, whatever its status, and
    afterwards finalizes its statement and closes its connection (lines
    213-220 and 279-286).  [res2nss_status] is taken to answer a row with
    SUCCESS and to leave the handles alone. *)
Theorem lookup_found :
  forall (s : store) (fill_group_sql : option stmt -> group)
         (fill_group : option nat -> Z -> Z -> group -> Z -> M reply)
         (query sql : string) (param : value) (buf buflen errno : Z) (w : world)
         (o : row) (rest : list outcome),
    open_rc s = SQLITE_OK ->
    query_text s query = Some sql ->
    prepare_rc s sql = SQLITE_OK ->
    bind_rc s sql 1 = SQLITE_OK ->
    results s sql [param] = Row o :: rest ->
    let h := next_handle w in
    let pSt := Some {| st_id := S h; st_sql := sql; st_params := [param];
                       st_pending := rest; st_row := o |} in
    let marshal :=
      fill_group (Some h) buf buflen (fill_group_sql pSt) errno
        {| events := events w ++ [EvOpen h; EvPrepare (Some h) (S h)];
           next_handle := S (S h); lock_depth := lock_depth w |} in
    let out := lookup s fill_group_sql fill_group query param buf buflen errno w in
    fst out = fst marshal /\
    events (snd out) = events (snd marshal) ++ [EvFinalize (S h); EvClose h].
Proof.
  intros s fsql fg query sql param buf buflen errno w o rest
         Ho Hq Hp Hb Hres h pSt marshal out.
  subst out marshal pSt h.
  unfold lookup, sqlite3_open, get_query. mrun.
  rewrite Ho, Z.eqb_refl. mrun. rewrite Hq.
  unfold sqlite3_prepare. rewrite Hp, Z.eqb_refl. mrun.
  rewrite Z.eqb_refl. mrun. rewrite Hb, Z.eqb_refl. mrun.
  unfold sqlite3_step. mrun. rewrite Hres. cbn [rc_of].
  unfold res2nss_status. rewrite Z.eqb_refl. mrun. rewrite Z.eqb_refl. mrun.
  unfold advance. mrun. rewrite <- app_assoc. cbn [app]. unfold bind.
  destruct (fg _ _ _ _ _ _) as [r w1]. mrun.
  split; [reflexivity|]. rewrite <- app_assoc. reflexivity.
Qed.

Section VectorMore.

Variable junk : nat -> Z.

(** X9.  When the store fails [_nss_sqlite_initgroups_dyn] before its first
    step, it returns UNAVAIL and leaves the caller's vector and [errno]
    as they were; the connection it opened is closed once, and so is the
    statement if it was prepared (lines 316-350). *)
Theorem initgroups_dyn_setup_failure :
  forall (s : store) (user : list byte) (gid : Z) (g : groups)
         (limit errno : Z) (w : world),
    setup_fails s "initgroups_dyn" [1; 2] ->
    let out := _nss_sqlite_initgroups_dyn junk s user gid g limit errno w in
    fst out = Some (NSS_STATUS_UNAVAIL, errno, g) /\
    events (snd out)
    = events w ++ opened_and_closed (next_handle w) (prepares s "initgroups_dyn").
Proof.
  intros s user gid g limit errno w Hfail out. subst out.
  unfold _nss_sqlite_initgroups_dyn, sqlite3_open, prepares, opened_and_closed,
    get_query. mrun.
  destruct (Z.eqb_spec (open_rc s) SQLITE_OK) as [Ho|Ho]; mrun.
  2: { split; [reflexivity|]. rewrite <- app_assoc. reflexivity. }
  destruct Hfail as [Hfail|Hfail]; [contradiction|].
  destruct (query_text s "initgroups_dyn") as [sql|]; mrun.
  2: { split; [reflexivity|]. rewrite <- app_assoc. reflexivity. }
  unfold sqlite3_prepare.
  destruct (Z.eqb_spec (prepare_rc s sql) SQLITE_OK) as [Hp|Hp]; mrun.
  - rewrite Z.eqb_refl. mrun.
    destruct Hfail as [Hfail|Hfail]; [contradiction|].
    destruct (Z.eqb_spec (bind_rc s sql 1) SQLITE_OK) as [Hb1|Hb1]; mrun.
    + apply Exists_cons in Hfail. destruct Hfail as [Hb|Hfail]; [contradiction|].
      apply Exists_cons in Hfail. destruct Hfail as [Hb|Hb];
        [|apply Exists_nil in Hb; contradiction].
      apply Z.eqb_neq in Hb. rewrite Hb. mrun.
      split; [reflexivity|]. rewrite <- !app_assoc. reflexivity.
    + split; [reflexivity|]. rewrite <- !app_assoc. reflexivity.
  - apply Z.eqb_neq in Hp. rewrite Hp. mrun.
    split; [reflexivity|]. rewrite <- !app_assoc. reflexivity.
Qed.

(** X10.  When the statement yields rows, [_nss_sqlite_initgroups_dyn] leaves
    its loop at the limit or at the end of the rows, and on both ways out
    it finalizes its statement once and closes its connection once
    (lines 370-371 and 387-388).  [res2nss_status] is taken to answer the
    first row with SUCCESS and to leave the handles alone. *)
Theorem initgroups_dyn_releases :
  forall (s : store) (user : list byte) (gid : Z) (g : groups)
         (limit errno : Z) (w : world) (id0 : Z) (ids : list Z),
    yields_groups s user gid (id0 :: ids) ->
    vector_ok limit g ->
    2 * (start g + Z.of_nat (length (id0 :: ids))) <= max_cells ->
    events (snd (_nss_sqlite_initgroups_dyn junk s user gid g limit errno w))
    = events w ++ opened_and_closed (next_handle w) true.
Proof.
  intros s user gid g limit errno w id0 ids
         (sql & rest & Hopen & Hq & Hp & Hb1 & Hb2 & Hres & Hrest) Hok Hroom.
  unfold _nss_sqlite_initgroups_dyn, sqlite3_open, opened_and_closed. mrun.
  rewrite Hopen, Z.eqb_refl. mrun. unfold get_query. rewrite Hq.
  unfold sqlite3_prepare. rewrite Hp, Z.eqb_refl. mrun.
  rewrite Z.eqb_refl. mrun. rewrite Hb1, Z.eqb_refl. mrun.
  rewrite Hb2, Z.eqb_refl. mrun.
  unfold sqlite3_step at 1. mrun. rewrite Hres. cbn [map app].
  change (gid_row id0) with (Row [VInt id0]). cbn [rc_of].
  unfold res2nss_status.
  rewrite Z.eqb_refl. mrun. rewrite Z.eqb_refl. mrun.
  unfold advance. cbn [pending_of]. mrun.
  match goal with
  | |- context [collect junk ?f limit (Some ?p) g] =>
      destruct (collect_rows junk limit ids f p g id0 rest)
        as (g' & p' & Hid & _ & Hcases);
        [reflexivity | reflexivity | exact Hrest
        | rewrite length_app, length_map; lia | exact Hok
        | cbn [length] in Hroom; lia |]
  end.
  cbn [st_id] in Hid.
  destruct Hcases as [(_ & -> & _) | (_ & -> & _)]; mrun;
    rewrite Hid, <- !app_assoc; reflexivity.
Qed.

(** X11.  A vector without cells cannot be grown: twice nothing is nothing,
    and line 380 stores the id outside of the block. *)
Theorem append_needs_a_cell :
  forall (limit gid : Z) (g : groups),
    start g = 0 -> size g = 0 ->
    append junk limit gid g = Undefined.
Proof.
  intros limit gid g Hstart Hsize. unfold append, grow.
  rewrite Hstart, Hsize. cbn [Z.eqb].
  change (to_long (0 * 2)) with 0.
  assert (Hnew : forall c, c = 0 ->
            length (realloc junk (groupsp g) (to_size_t (sizeof_gid * to_size_t c)))
            = 0%nat).
  { intros c ->. reflexivity. }
  destruct (Z.ltb_spec 0 limit) as [Hl|Hl].
  - assert (Hc : (if limit <? 0 then limit else 0) = 0)
      by (destruct (Z.ltb_spec limit 0); [lia|reflexivity]).
    cbn [start size groupsp]. rewrite (Hnew _ Hc). reflexivity.
  - cbn [start size groupsp]. rewrite (Hnew 0 eq_refl). reflexivity.
Qed.

End VectorMore.

(** ** The enumeration: opening, closing, fetching, retrying *)

Section CursorMore.

Variable s : store.
Variable fill_group_sql : option stmt -> group.
Variable fill_group : option nat -> Z -> Z -> group -> Z -> M reply.

(** X12.  On a closed cursor and a store that opens and prepares,
    [_nss_sqlite_setgrent] opens one connection and prepares one
    statement, which has all its rows ahead, and gives the mutex back;
    it leaves [try_again] and the cached entry as it finds them. *)
Theorem setgrent_opens :
  forall (d : grent_data) (w : world) (sql : string),
    pDb d = None ->
    open_rc s = SQLITE_OK ->
    query_text s "setgrent" = Some sql ->
    prepare_rc s sql = SQLITE_OK ->
    let out := _nss_sqlite_setgrent s d w in
    let d1 := snd (fst out) in
    fst (fst out) = NSS_STATUS_SUCCESS /\
    pDb d1 = Some (next_handle w) /\
    (exists p, pSt d1 = Some p /\ st_id p = S (next_handle w) /\
               st_pending p = results s sql []) /\
    try_again d1 = try_again d /\ entry d1 = entry d /\
    events (snd out)
    = events w ++ [EvOpen (next_handle w);
                   EvPrepare (Some (next_handle w)) (S (next_handle w))] /\
    lock_depth (snd out) = lock_depth w.
Proof.
  intros d w sql Hdb Hopen Hq Hp out d1. subst d1 out.
  rewrite (setgrent_on_closed s d w sql Hdb Hopen Hq Hp). cbn [fst snd].
  crun. repeat (split; [reflexivity|]).
  split; [eexists; repeat split; reflexivity|].
  repeat split; reflexivity.
Qed.

Lemma endgrent_eq (d : grent_data) (w : world) :
  _nss_sqlite_endgrent d w
  = (NSS_STATUS_SUCCESS, set_pDb d None,
     {| events := events w ++ closing d; next_handle := next_handle w;
        lock_depth := lock_depth w |}).
Proof.
  unfold _nss_sqlite_endgrent, closing, set_pDb. crun.
  destruct d as [[db|] [p|] ta e]; crun; rewrite <- ?app_assoc, ?app_nil_r;
    reflexivity.
Qed.

(** X13.  [_nss_sqlite_endgrent] always returns SUCCESS and gives the mutex
    back.  On an open cursor it finalizes the statement and closes the
    connection, once each, and sets [pDb] to NULL; called again, or on a
    closed cursor, it releases nothing.  It leaves [try_again] and the
    cached entry as it finds them. *)
Theorem endgrent_closes_once :
  forall (d : grent_data) (w : world),
    let out := _nss_sqlite_endgrent d w in
    let d1 := snd (fst out) in
    let out2 := _nss_sqlite_endgrent d1 (snd out) in
    fst (fst out) = NSS_STATUS_SUCCESS /\
    pDb d1 = None /\
    try_again d1 = try_again d /\ entry d1 = entry d /\
    events (snd out) = events w ++ closing d /\
    lock_depth (snd out) = lock_depth w /\
    snd (fst out2) = d1 /\
    events (snd out2) = events (snd out).
Proof.
  intros d w out d1 out2. subst out2 d1 out.
  rewrite !endgrent_eq. cbn [fst snd]. unfold closing, set_pDb. crun.
  repeat (split; [reflexivity|]). apply app_nil_r.
Qed.

(** X14.  A [_nss_sqlite_setgrent] that fails after it has opened the
    connection closes it and leaves [pDb] set (lines 73-84), so that the
    cursor passes for open: the [_nss_sqlite_endgrent] that follows closes
    the same connection a second time. *)
Theorem endgrent_closes_again_after_failed_setgrent :
  forall (d : grent_data) (w : world),
    pDb d = None ->
    pSt d = None ->
    open_rc s = SQLITE_OK ->
    prepares s "setgrent" = false ->
    let h := next_handle w in
    let out1 := _nss_sqlite_setgrent s d w in
    let out2 := _nss_sqlite_endgrent (snd (fst out1)) (snd out1) in
    fst (fst out1) = NSS_STATUS_UNAVAIL /\
    pDb (snd (fst out1)) = Some h /\
    events (snd out1) = events w ++ [EvOpen h; EvClose h] /\
    pDb (snd (fst out2)) = None /\
    events (snd out2) = events w ++ [EvOpen h; EvClose h; EvClose h].
Proof.
  intros d w Hdb Hst Hopen Hprep h out1 out2. subst out2 out1 h.
  rewrite endgrent_eq. cbn [fst snd]. unfold closing.
  unfold prepares in Hprep. rewrite Hopen, Z.eqb_refl in Hprep.
  cbn [andb] in Hprep.
  unfold _nss_sqlite_setgrent. rewrite Hdb. crun.
  unfold sqlite3_open. crun. rewrite Hopen, Z.eqb_refl. crun.
  unfold get_query. destruct (query_text s "setgrent") as [sql|]; crun.
  - unfold sqlite3_prepare. rewrite Hprep. crun. rewrite Hprep. crun.
    rewrite <- !app_assoc. repeat split; reflexivity.
  - rewrite Hst. rewrite <- !app_assoc. repeat split; reflexivity.
Qed.

(** In that trace the first [sqlite3_close] releases the connection, and
    the second one is a call on a connection that is not there any
    more. *)
Example endgrent_second_close_undefined :
  let s := without_query demo_store "setgrent" in
  let out1 := _nss_sqlite_setgrent s grent_data_init world_init in
  let out2 := _nss_sqlite_endgrent (snd (fst out1)) (snd out1) in
  replay no_handles (events (snd out1)) = Some no_handles /\
  replay no_handles (events (snd out2)) = None.
Proof. vm_compute. split; reflexivity. Qed.

(** X15.  On a closed cursor [_nss_sqlite_getgrent_r] opens the enumeration
    itself: it does what it does after a call of
    [_nss_sqlite_setgrent], whether that call succeeds or not (lines
    122-124, where the status of the call is dropped). *)
Theorem getgrent_r_opens_itself :
  forall (d : grent_data) (buf buflen errno : Z) (w : world),
    pDb d = None ->
    let opened := _nss_sqlite_setgrent s d w in
    _nss_sqlite_getgrent_r s fill_group_sql fill_group d buf buflen errno w
    = _nss_sqlite_getgrent_r s fill_group_sql fill_group
        (snd (fst opened)) buf buflen errno (snd opened).
Proof.
  intros d buf buflen errno w Hdb opened. subst opened.
  unfold _nss_sqlite_getgrent_r at 1. rewrite Hdb.
  unfold _nss_sqlite_getgrent_r, _nss_sqlite_setgrent. rewrite Hdb.
  unfold sqlite3_open, get_query, sqlite3_prepare.
  unfold bind, lock, fresh, log, ret. crun.
  destruct (open_rc s =? SQLITE_OK); crun; [|reflexivity].
  destruct (query_text s "setgrent") as [sql|]; crun; [|reflexivity].
  destruct (prepare_rc s sql =? SQLITE_OK) eqn:E; crun.
  - reflexivity.
  - rewrite E. crun. reflexivity.
Qed.

Lemma fetch_on_row (d : grent_data) (buf buflen errno : Z) (w : world)
  (p : stmt) (o : row) (rest : list outcome) :
  pSt d = Some p ->
  st_pending p = Row o :: rest ->
  let q := advance p (Row o) rest in
  let d1 := set_entry (set_pSt d (Some q)) (fill_group_sql (Some q)) in
  let m := fill_group (pDb d) buf buflen (fill_group_sql (Some q)) errno w in
  fetch fill_group_sql fill_group d buf buflen errno w
  = (if (r_status (fst m) =? NSS_STATUS_TRYAGAIN) && (r_errno (fst m) =? ERANGE)
     then ({| r_status := NSS_STATUS_TRYAGAIN; r_errno := r_errno (fst m);
              r_gbuf := r_gbuf (fst m); r_writes := r_writes (fst m) |},
           set_try_again d1 true)
     else ({| r_status := NSS_STATUS_SUCCESS; r_errno := r_errno (fst m);
              r_gbuf := r_gbuf (fst m); r_writes := r_writes (fst m) |}, d1),
     snd (unlock (snd m))).
Proof.
  intros Hst Hpend q d1 m. subst m d1 q.
  unfold fetch. rewrite Hst. unfold sqlite3_step. rewrite Hpend.
  crun. unfold res2nss_status. cbn [rc_of].
  rewrite Z.eqb_refl. crun. rewrite Z.eqb_refl. crun.
  unfold bind.
  destruct (fill_group _ _ _ _ _ _) as [m w1]. cbn [fst snd].
  destruct ((r_status m =? NSS_STATUS_TRYAGAIN) && (r_errno m =? ERANGE));
    crun; reflexivity.
Qed.

Lemma getgrent_r_fetch_eq (d : grent_data) (buf buflen errno : Z) (w : world)
  (db : nat) :
  pDb d = Some db ->
  try_again d = false ->
  _nss_sqlite_getgrent_r s fill_group_sql fill_group d buf buflen errno w
  = fetch fill_group_sql fill_group d buf buflen errno (snd (lock w)).
Proof.
  intros Hdb Hta. unfold _nss_sqlite_getgrent_r. crun. rewrite Hdb. crun.
  rewrite Hta. reflexivity.
Qed.

(** X16.  A retry that does not fail for lack of room returns what
    [fill_group] answers for the cached entry, whatever its status, and
    clears [try_again] (lines 126-133).  The call itself leaves the
    statement, the connection and the cached entry alone, steps nothing
    and gives the mutex back. *)
Theorem getgrent_r_retry_returns :
  forall (d : grent_data) (buf buflen errno : Z) (w : world) (db : nat),
    pDb d = Some db ->
    try_again d = true ->
    let m := fill_group (Some db) buf buflen (entry d) errno (snd (lock w)) in
    ~ (r_status (fst m) = NSS_STATUS_TRYAGAIN /\ r_errno (fst m) = ERANGE) ->
    let out := _nss_sqlite_getgrent_r s fill_group_sql fill_group
                 d buf buflen errno w in
    let d' := snd (fst out) in
    fst (fst out) = fst m /\
    try_again d' = false /\
    pDb d' = pDb d /\ pSt d' = pSt d /\ entry d' = entry d /\
    events (snd out) = events (snd m) /\
    lock_depth (snd out) = pred (lock_depth (snd m)).
Proof.
  intros d buf buflen errno w db Hdb Hta m Hm out d'. subst d' out.
  rewrite (getgrent_r_retry_eq s fill_group_sql fill_group d buf buflen errno w db
             Hdb Hta Hm).
  crun. repeat split; reflexivity.
Qed.

(** X17.  An entry that did not fit is not lost when the caller comes back
    with enough room.  The call that fetches a row for which [fill_group]
    answers TRYAGAIN with ERANGE returns TRYAGAIN, with [try_again] set
    and the entry cached (lines 146-153); the next call hands that very
    entry to [fill_group] again and returns its answer, and the statement
    is still on the row of the entry.  [res2nss_status] is taken to answer
    a row with SUCCESS and to leave the handles alone. *)
Theorem getgrent_r_retry_round_trip :
  forall (d : grent_data) (buf buflen errno buf' buflen' errno' : Z) (w : world)
         (db : nat) (p : stmt) (o : row) (rest : list outcome),
    pDb d = Some db ->
    pSt d = Some p ->
    try_again d = false ->
    st_pending p = Row o :: rest ->
    let q := advance p (Row o) rest in
    let e := fill_group_sql (Some q) in
    let m1 := fill_group (Some db) buf buflen e errno (snd (lock w)) in
    r_status (fst m1) = NSS_STATUS_TRYAGAIN ->
    r_errno (fst m1) = ERANGE ->
    let out1 := _nss_sqlite_getgrent_r s fill_group_sql fill_group
                  d buf buflen errno w in
    let m2 := fill_group (Some db) buf' buflen' e errno' (snd (lock (snd out1))) in
    ~ (r_status (fst m2) = NSS_STATUS_TRYAGAIN /\ r_errno (fst m2) = ERANGE) ->
    let out2 := _nss_sqlite_getgrent_r s fill_group_sql fill_group
                  (snd (fst out1)) buf' buflen' errno' (snd out1) in
    (r_status (fst (fst out1)) = NSS_STATUS_TRYAGAIN /\
     r_errno (fst (fst out1)) = ERANGE /\
     try_again (snd (fst out1)) = true /\
     entry (snd (fst out1)) = e) /\
    (fst (fst out2) = fst m2 /\
     try_again (snd (fst out2)) = false /\
     pSt (snd (fst out2)) = Some q /\
     entry (snd (fst out2)) = e).
Proof.
  intros d buf buflen errno buf' buflen' errno' w db p o rest
    Hdb Hst Hta Hpend q e m1 Hs He out1 m2 Hm2 out2.
  assert (Hout1 : out1
    = ({| r_status := NSS_STATUS_TRYAGAIN; r_errno := r_errno (fst m1);
          r_gbuf := r_gbuf (fst m1); r_writes := r_writes (fst m1) |},
       set_try_again (set_entry (set_pSt d (Some q)) e) true,
       snd (unlock (snd m1)))).
  { subst out1. rewrite (getgrent_r_fetch_eq d buf buflen errno w db Hdb Hta).
    rewrite (fetch_on_row d buf buflen errno _ p o rest Hst Hpend).
    rewrite Hdb. fold q. fold e. fold m1. rewrite Hs, He, !Z.eqb_refl.
    reflexivity. }
  subst out2 m2. rewrite Hout1 in Hm2 |- *. cbn [fst snd] in Hm2 |- *.
  split.
  - crun. rewrite He. repeat split; reflexivity.
  - assert (Hdb1 : pDb (set_try_again (set_entry (set_pSt d (Some q)) e) true)
                   = Some db) by (crun; exact Hdb).
    rewrite (getgrent_r_retry_eq s fill_group_sql fill_group _ buf' buflen' errno' _ db
               Hdb1 eq_refl Hm2).
    crun. repeat split; reflexivity.
Qed.

Lemma calls_succ (n : nat) (buf buflen errno : Z) (d : grent_data) (w : world) :
  calls s fill_group_sql fill_group (S n) buf buflen errno d w
  = let out := _nss_sqlite_getgrent_r s fill_group_sql fill_group
                 d buf buflen errno w in
    let more := calls s fill_group_sql fill_group n buf buflen errno
                  (snd (fst out)) (snd out) in
    (fst out :: fst more, snd more).
Proof.
  cbn [calls].
  destruct (_nss_sqlite_getgrent_r _ _ _ _ _ _ _ _) as [[r d'] w'].
  cbn [fst snd].
  destruct (calls _ _ _ _ _ _ _ _ _) as [tr w'']. reflexivity.
Qed.

(** X18.  As long as [fill_group] does not ask for a larger buffer, successive
    calls of [_nss_sqlite_getgrent_r] deliver the rows of the statement
    one by one and in order: the call number i returns SUCCESS, leaves
    the statement on row i and the entry of that row in [grent_data],
    and keeps the cursor open with [try_again] clear.  [res2nss_status]
    is taken to answer a row with SUCCESS and to leave the handles
    alone. *)
Theorem getgrent_r_visits_rows_in_order :
  forall (os : list row) (rest : list outcome) (p : stmt) (d : grent_data)
         (buf buflen errno : Z) (w : world) (db : nat),
    pDb d = Some db ->
    pSt d = Some p ->
    try_again d = false ->
    st_pending p = map Row os ++ rest ->
    (forall q w', In q (positions p os rest) ->
       let m := fst (fill_group (Some db) buf buflen (fill_group_sql (Some q))
                       errno w') in
       ~ (r_status m = NSS_STATUS_TRYAGAIN /\ r_errno m = ERANGE)) ->
    Forall2
      (fun (q : stmt) (c : reply * grent_data) =>
         r_status (fst c) = NSS_STATUS_SUCCESS /\
         snd c = {| pDb := Some db; pSt := Some q; try_again := false;
                    entry := fill_group_sql (Some q) |})
      (positions p os rest)
      (fst (calls s fill_group_sql fill_group (length os) buf buflen errno d w)).
Proof.
  induction os as [|o os IH]; intros rest p d buf buflen errno w db
    Hdb Hst Hta Hpend Hfit.
  - constructor.
  - cbn [length positions]. rewrite calls_succ. cbn [fst snd].
    cbn [map app] in Hpend.
    rewrite (getgrent_r_fetch_eq d buf buflen errno w db Hdb Hta).
    rewrite (fetch_on_row d buf buflen errno _ p o _ Hst Hpend).
    rewrite Hdb.
    set (q := advance p (Row o) (map Row os ++ rest)) in *.
    pose proof (Hfit q (snd (lock w)) (or_introl eq_refl)) as Hq.
    cbn zeta in Hq.
    destruct (fill_group (Some db) buf buflen (fill_group_sql (Some q)) errno
                (snd (lock w))) as [m w1].
    cbn [fst snd] in Hq |- *.
    assert (Hno : (r_status m =? NSS_STATUS_TRYAGAIN) && (r_errno m =? ERANGE)
                  = false).
    { destruct (Z.eqb_spec (r_status m) NSS_STATUS_TRYAGAIN) as [Es|Es];
        destruct (Z.eqb_spec (r_errno m) ERANGE) as [Ee|Ee];
        try reflexivity.
      exfalso. apply Hq. split; assumption. }
    rewrite Hno. cbn [fst snd].
    assert (Hd1 : set_entry (set_pSt d (Some q)) (fill_group_sql (Some q))
                  = {| pDb := Some db; pSt := Some q; try_again := false;
                       entry := fill_group_sql (Some q) |}).
    { unfold set_entry, set_pSt. cbn [pDb pSt try_again entry].
      rewrite Hdb, Hta. reflexivity. }
    rewrite Hd1. constructor.
    + split; reflexivity.
    + apply (IH rest q _ buf buflen errno _ db); try reflexivity.
      intros q' w' Hin. apply Hfit. right. exact Hin.
Qed.

(** X19.  [try_again] and the cached entry outlive the enumeration they
    belong to: neither [_nss_sqlite_endgrent] nor [_nss_sqlite_setgrent]
    clears them.  When an enumeration is ended while a retry is pending
    and a new one is opened, the first call of
    [_nss_sqlite_getgrent_r] hands the entry cached by the old
    enumeration to [fill_group] and returns its answer; the statement of
    the new enumeration is not stepped. *)
Theorem getgrent_r_stale_retry_after_reopen :
  forall (d : grent_data) (buf buflen errno : Z) (w : world) (sql : string),
    try_again d = true ->
    open_rc s = SQLITE_OK ->
    query_text s "setgrent" = Some sql ->
    prepare_rc s sql = SQLITE_OK ->
    let out1 := _nss_sqlite_endgrent d w in
    let out2 := _nss_sqlite_setgrent s (snd (fst out1)) (snd out1) in
    let m := fill_group (Some (next_handle w)) buf buflen (entry d) errno
               (snd (lock (snd out2))) in
    ~ (r_status (fst m) = NSS_STATUS_TRYAGAIN /\ r_errno (fst m) = ERANGE) ->
    let out3 := _nss_sqlite_getgrent_r s fill_group_sql fill_group
                  (snd (fst out2)) buf buflen errno (snd out2) in
    fst (fst out3) = fst m /\
    entry (snd (fst out3)) = entry d /\
    exists p, pSt (snd (fst out3)) = Some p /\
              st_pending p = results s sql [] /\ st_row p = [].
Proof.
  intros d buf buflen errno w sql Hta Hopen Hq Hp out1 out2 m Hm out3.
  subst out3 m out2 out1. revert Hm. rewrite endgrent_eq. cbn [fst snd].
  rewrite (setgrent_on_closed s (set_pDb d None) _ sql eq_refl Hopen Hq Hp).
  cbn [fst snd]. intros Hm.
  match goal with
  | |- context [_nss_sqlite_getgrent_r _ _ _ ?d2 _ _ _ ?w2] =>
      rewrite (getgrent_r_retry_eq s fill_group_sql fill_group d2 buf buflen
                 errno w2 (next_handle w) eq_refl Hta Hm)
  end.
  crun. split; [reflexivity|]. split; [reflexivity|].
  eexists. repeat split; reflexivity.
Qed.

(** X22.  When [_nss_sqlite_getgrent_r] advances the statement with no
    retry pending and there is no row left, it returns NOTFOUND, the
    statement is finalized and the connection closed, [pDb] is NULL,
    [try_again] is still clear, the cached entry is untouched and the
    mutex is given back; on a store that opens and prepares, the next
    [_nss_sqlite_setgrent] opens a new connection and prepares a new
    statement that has all its rows ahead.  [res2nss_status] is taken to
    answer the end of the rows with NOTFOUND after it has finalized the
    statement and closed the connection. *)
Theorem getgrent_r_end_of_set_closes :
  forall (d : grent_data) (buf buflen errno : Z) (w : world) (db : nat) (p : stmt),
    pDb d = Some db ->
    pSt d = Some p ->
    hd Done (st_pending p) = Done ->
    try_again d = false ->
    let out := _nss_sqlite_getgrent_r s fill_group_sql fill_group
                 d buf buflen errno w in
    let d' := snd (fst out) in
    r_status (fst (fst out)) = NSS_STATUS_NOTFOUND /\
    pDb d' = None /\
    try_again d' = false /\
    entry d' = entry d /\
    events (snd out) = events w ++ [EvFinalize (st_id p); EvClose db] /\
    lock_depth (snd out) = lock_depth w /\
    (forall sql,
        open_rc s = SQLITE_OK ->
        query_text s "setgrent" = Some sql ->
        prepare_rc s sql = SQLITE_OK ->
        let d2 := snd (fst (_nss_sqlite_setgrent s d' (snd out))) in
        pDb d2 = Some (next_handle w) /\
        pSt d2 = Some {| st_id := S (next_handle w); st_sql := sql;
                         st_params := []; st_pending := results s sql [];
                         st_row := [] |} /\
        try_again d2 = false).
Proof.
  intros d buf buflen errno w db p Hdb Hst Hend Hta out d'.
  destruct (getgrent_r_at_end s fill_group_sql fill_group d buf buflen errno w
              db p Hdb Hst Hend) as (r & Hout & Hr).
  { rewrite Hta. discriminate. }
  subst d' out. rewrite Hout, Hta. crun.
  split; [exact Hr|]. split; [reflexivity|]. split; [exact Hta|].
  split; [reflexivity|]. split; [reflexivity|]. split; [reflexivity|].
  intros sql Hopen Hq Hp.
  match goal with
  | |- context [_nss_sqlite_setgrent s ?d1 ?w1] =>
      rewrite (setgrent_on_closed s d1 w1 sql eq_refl Hopen Hq Hp)
  end.
  crun. split; [reflexivity|]. split; [reflexivity|]. exact Hta.
Qed.

End CursorMore.

(** ** The theorems at concrete inputs *)

Lemma get_users_zero_members_witness :
  let r := fst (get_users demo_store (Some 0%nat) 300 4096 8 0 world_init) in
  (8 < sizeof_ptr ->
     f_status r = NSS_STATUS_TRYAGAIN /\ f_errno r = ERANGE /\ f_writes r = []) /\
  (sizeof_ptr <= 8 ->
     f_status r = NSS_STATUS_SUCCESS /\ f_errno r = 0 /\
     f_writes r = [{| w_off := 0; w_data := repeat Byte.x00 8 |}]).
Proof.
  apply (get_users_zero_members demo_store (Some 0%nat) 300 4096 8 0 world_init
           "members"); reflexivity.
Defined.

Lemma pack_members_in_bounds_witness :
  let r := pack_members 4096 34 0 alice_bob in
  let pointer_table_size := (Z.of_nat (length alice_bob) + 1) * sizeof_ptr in
  (34 < pointer_table_size ->
     f_status r = NSS_STATUS_TRYAGAIN /\ f_errno r = ERANGE /\ f_writes r = []) /\
  (pointer_table_size <= 34 ->
     34 - pointer_table_size < string_bytes alice_bob ->
     f_status r = NSS_STATUS_TRYAGAIN /\ f_errno r = ERANGE) /\
  (pointer_table_size + string_bytes alice_bob <= 34 ->
     f_status r = NSS_STATUS_SUCCESS /\ f_errno r = 0) /\
  Forall (in_bounds 34) (f_writes r).
Proof.
  apply (pack_members_in_bounds 4096 34 0 alice_bob).
  - vm_compute. split; discriminate.
  - vm_compute. discriminate.
  - repeat constructor; vm_compute; discriminate.
Defined.

Lemma pack_members_round_trip_witness :
  let r := pack_members 4096 34 0 alice_bob in
  let pointer_table_size := (Z.of_nat (length alice_bob) + 1) * sizeof_ptr in
  f_status r = NSS_STATUS_SUCCESS /\
  (exists entries,
      unpack 4096 (apply_writes (f_writes r) (repeat Byte.xff 34)) = Some entries /\
      map snd entries = map cstr alice_bob /\
      Forall (fun o => pointer_table_size <= o < 34) (map fst entries)) /\
  (exists ws, f_writes r = ws ++ [store_ptr (Z.of_nat (length alice_bob)) NULL]).
Proof.
  apply (pack_members_round_trip 4096 34 0 alice_bob (repeat Byte.xff 34)).
  - reflexivity.
  - vm_compute. discriminate.
  - reflexivity.
  - vm_compute. discriminate.
  - repeat constructor; vm_compute; discriminate.
  - vm_compute. discriminate.
Defined.

Lemma yields_groups_demo :
  yields_groups demo_store (text "alice") 5 [100; 200].
Proof.
  exists "groups of user"%string, [Done].
  repeat split; try reflexivity. discriminate.
Defined.

Lemma vector_ok_one_group (limit : Z) : 0 <= limit -> vector_ok limit one_group.
Proof.
  intros H. unfold vector_ok, one_group, max_cells. cbn [start size groupsp length].
  lia.
Defined.


Lemma initgroups_dyn_growth_witness :
  exists status errno' g',
    fst (_nss_sqlite_initgroups_dyn (fun _ => 0) demo_store (text "alice") 5
           one_group 2 0 world_init) = Some (status, errno', g') /\
    (status = NSS_STATUS_TRYAGAIN /\ errno' = ERANGE
       <-> 0 < 2 /\ 2 < start one_group + 2) /\
    (status = NSS_STATUS_TRYAGAIN ->
       start g' = 2 /\
       firstn (Z.to_nat 2) (groupsp g')
         = firstn (Z.to_nat (start one_group)) (groupsp one_group)
             ++ map gid_of (firstn (Z.to_nat (2 - start one_group)) [100; 200])) /\
    (status <> NSS_STATUS_TRYAGAIN ->
       status = NSS_STATUS_SUCCESS /\ errno' = 0 /\ start g' = start one_group + 2).
Proof.
  apply (initgroups_dyn_growth (fun _ => 0) demo_store (text "alice") 5
           one_group 2 0 world_init 100 [200]).
  - exact yields_groups_demo.
  - apply vector_ok_one_group. discriminate.
  - vm_compute. discriminate.
Defined.


Lemma setgrent_error_keeps_lock_witness :
  lock_depth (snd (_nss_sqlite_setgrent (failing_open demo_store 14)
                     grent_data_init world_init))
  = S (lock_depth world_init).
Proof.
  apply (setgrent_error_keeps_lock (failing_open demo_store 14)
           grent_data_init world_init).
  vm_compute. discriminate.
Defined.

Lemma getgrent_r_end_of_set_keeps_retry_witness :
  let out := _nss_sqlite_getgrent_r demo_store spec_fill_group_sql
               (spec_fill_group demo_store) last_retry 4096 10 0 world_opened in
  let d' := snd (fst out) in
  r_status (fst (fst out)) = NSS_STATUS_NOTFOUND /\
  pDb d' = None /\
  try_again d' = true /\
  entry d' = entry last_retry /\
  (forall (sql : string) (buf' buflen' errno' : Z),
      open_rc demo_store = SQLITE_OK ->
      query_text demo_store "setgrent" = Some sql ->
      prepare_rc demo_store sql = SQLITE_OK ->
      let out2 := _nss_sqlite_setgrent demo_store d' (snd out) in
      let m := spec_fill_group demo_store (pDb (snd (fst out2))) buf' buflen'
                 (entry last_retry) errno' (snd (lock (snd out2))) in
      ~ (r_status (fst m) = NSS_STATUS_TRYAGAIN /\ r_errno (fst m) = ERANGE) ->
      let out3 := _nss_sqlite_getgrent_r demo_store spec_fill_group_sql
                    (spec_fill_group demo_store) (snd (fst out2)) buf' buflen'
                    errno' (snd out2) in
      fst (fst out2) = NSS_STATUS_SUCCESS /\
      fst (fst out3) = fst m /\
      exists q, pSt (snd (fst out3)) = Some q /\
                st_pending q = results demo_store sql [] /\ st_row q = []).
Proof.
  apply (getgrent_r_end_of_set_keeps_retry demo_store spec_fill_group_sql
           (spec_fill_group demo_store) last_retry 4096 10 0 world_opened
           0%nat (groups_stmt [Done] users_row));
    reflexivity.
Defined.

Lemma getgrent_r_success_on_failed_marshal_witness :
  r_status (fst (fst (_nss_sqlite_getgrent_r no_members_store spec_fill_group_sql
                        (spec_fill_group no_members_store)
                        (enumeration [Row staff_row; Row users_row; Done] [])
                        4096 4096 0 world_opened)))
  = NSS_STATUS_SUCCESS.
Proof.
  apply (getgrent_r_success_on_failed_marshal no_members_store spec_fill_group_sql
           (spec_fill_group no_members_store)
           (enumeration [Row staff_row; Row users_row; Done] [])
           4096 4096 0 world_opened 0%nat
           (groups_stmt [Row staff_row; Row users_row; Done] [])
           staff_row [Row users_row; Done]);
    reflexivity.
Defined.

Lemma getgrent_r_retry_advances_witness :
  let d' := snd (fst (_nss_sqlite_getgrent_r demo_store spec_fill_group_sql
                        (spec_fill_group demo_store) pending_retry
                        4096 10 0 world_opened)) in
  pSt d' = Some (advance (groups_stmt [Row users_row; Done] staff_row)
                   (Row users_row) [Done]) /\
  entry d' = spec_fill_group_sql
               (Some (advance (groups_stmt [Row users_row; Done] staff_row)
                        (Row users_row) [Done])).
Proof.
  apply (getgrent_r_retry_advances demo_store spec_fill_group_sql
           (spec_fill_group demo_store) pending_retry 4096 10 0 world_opened
           0%nat (groups_stmt [Row users_row; Done] staff_row)
           users_row [Done]);
    reflexivity.
Defined.

(** ** The further properties at concrete inputs *)

Lemma get_users_store_failure_witness :
  fst (get_users broken_members (Some 0%nat) 100 4096 64 0 world_init)
  = {| f_status := NSS_STATUS_UNAVAIL; f_errno := 0; f_writes := [] |}.
Proof.
  apply (get_users_store_failure broken_members (Some 0%nat) 100 4096 64 0
           world_init "members").
  - reflexivity.
  - right. right. split; vm_compute; discriminate.
Defined.

Lemma get_users_statement_balanced_witness :
  events (snd (get_users demo_store (Some 0%nat) 100 4096 64 0 world_opened))
  = events world_opened
      ++ (if prepare_rc demo_store "members" =? SQLITE_OK
          then [EvPrepare (Some 0%nat) (next_handle world_opened);
                EvFinalize (next_handle world_opened)]
          else []).
Proof.
  apply (get_users_statement_balanced demo_store (Some 0%nat) 100 4096 64 0
           world_opened "members").
  reflexivity.
Defined.

Lemma get_users_ignores_late_error_witness :
  fst (get_users interrupted_members (Some 0%nat) 100 4096 64 0 world_init)
  = pack_members 4096 64 0 (map strdup [text "alice"]).
Proof.
  apply (get_users_ignores_late_error interrupted_members (Some 0%nat) 100 4096
           64 0 world_init "members" (text "alice") [] 10
           [member_row (text "bob"); Done]).
  - reflexivity.
  - reflexivity.
  - reflexivity.
  - reflexivity.
  - vm_compute. discriminate.
Defined.

Lemma get_users_zero_rows_as_packing_witness :
  fst (get_users demo_store (Some 0%nat) 300 4096 8 0 world_init)
  = pack_members 4096 8 0 [].
Proof.
  apply (get_users_zero_rows_as_packing demo_store (Some 0%nat) 300 4096 8 0
           world_init "members"); reflexivity.
Defined.

Lemma pack_members_layout_witness :
  let pointer_table_size := (Z.of_nat (length alice_bob) + 1) * sizeof_ptr in
  apply_writes (f_writes (pack_members 4096 40 0 alice_bob)) (repeat Byte.xff 40)
  = ptr_bytes 4096 (offsets pointer_table_size alice_bob)
      ++ le_split 8 NULL
      ++ str_bytes alice_bob
      ++ skipn (Z.to_nat (pointer_table_size + string_bytes alice_bob))
           (repeat Byte.xff 40).
Proof.
  apply (pack_members_layout 4096 40 0 alice_bob (repeat Byte.xff 40)).
  - reflexivity.
  - vm_compute. discriminate.
  - vm_compute. discriminate.
  - repeat constructor; vm_compute; discriminate.
  - vm_compute. discriminate.
Defined.

Lemma pack_members_regions_witness :
  let pointer_table_size := (Z.of_nat (length alice_bob) + 1) * sizeof_ptr in
  Forall (fun w => within 0 pointer_table_size w \/
                   within pointer_table_size 30 w)
         (f_writes (pack_members 4096 30 0 alice_bob)).
Proof.
  apply (pack_members_regions 4096 30 0 alice_bob).
  - vm_compute. split; discriminate.
  - vm_compute. discriminate.
  - repeat constructor; vm_compute; discriminate.
Defined.

Lemma lookup_setup_failure_witness :
  let s := failing_prepare demo_store "group by name" 1 in
  let out := _nss_sqlite_getgrnam_r s spec_fill_group_sql (spec_fill_group s)
               (text "staff") 4096 4096 0 world_init in
  fst out = failed NSS_STATUS_UNAVAIL 0 /\
  events (snd out)
  = events world_init
      ++ opened_and_closed (next_handle world_init) (prepares s "getgrnam_r").
Proof.
  apply (lookup_setup_failure (failing_prepare demo_store "group by name" 1)
           spec_fill_group_sql
           (spec_fill_group (failing_prepare demo_store "group by name" 1))
           "getgrnam_r" (VText (text "staff")) 4096 4096 0 world_init).
  right. vm_compute. left. discriminate.
Defined.

Lemma lookup_found_witness :
  let pSt := Some {| st_id := 1; st_sql := "group by name";
                     st_params := [VText (text "staff")];
                     st_pending := [Done]; st_row := staff_row |} in
  let marshal :=
    spec_fill_group demo_store (Some 0%nat) 4096 4096 (spec_fill_group_sql pSt) 0
      {| events := events world_init ++ [EvOpen 0; EvPrepare (Some 0%nat) 1];
         next_handle := 2; lock_depth := lock_depth world_init |} in
  let out := _nss_sqlite_getgrnam_r demo_store spec_fill_group_sql
               (spec_fill_group demo_store) (text "staff") 4096 4096 0
               world_init in
  fst out = fst marshal /\
  events (snd out) = events (snd marshal) ++ [EvFinalize 1; EvClose 0].
Proof.
  apply (lookup_found demo_store spec_fill_group_sql (spec_fill_group demo_store)
           "getgrnam_r" "group by name" (VText (text "staff")) 4096 4096 0
           world_init staff_row [Done]); reflexivity.
Defined.

Lemma initgroups_dyn_setup_failure_witness :
  let s := failing_prepare demo_store "groups of user" 1 in
  let out := _nss_sqlite_initgroups_dyn (fun _ => 0) s (text "alice") 5
               one_group 0 0 world_init in
  fst out = Some (NSS_STATUS_UNAVAIL, 0, one_group) /\
  events (snd out)
  = events world_init
      ++ opened_and_closed (next_handle world_init) (prepares s "initgroups_dyn").
Proof.
  apply (initgroups_dyn_setup_failure (fun _ => 0)
           (failing_prepare demo_store "groups of user" 1) (text "alice") 5
           one_group 0 0 world_init).
  right. vm_compute. left. discriminate.
Defined.

Lemma initgroups_dyn_releases_witness :
  events (snd (_nss_sqlite_initgroups_dyn (fun _ => 0) demo_store (text "alice") 5
                 one_group 2 0 world_init))
  = events world_init ++ opened_and_closed (next_handle world_init) true.
Proof.
  apply (initgroups_dyn_releases (fun _ => 0) demo_store (text "alice") 5
           one_group 2 0 world_init 100 [200]).
  - exact yields_groups_demo.
  - apply vector_ok_one_group. discriminate.
  - vm_compute. discriminate.
Defined.

Lemma append_needs_a_cell_witness :
  append (fun _ => 0) 16 100 empty_vector = Undefined.
Proof.
  apply (append_needs_a_cell (fun _ => 0) 16 100 empty_vector); reflexivity.
Defined.

Lemma setgrent_opens_witness :
  let out := _nss_sqlite_setgrent demo_store grent_data_init world_init in
  let d1 := snd (fst out) in
  fst (fst out) = NSS_STATUS_SUCCESS /\
  pDb d1 = Some (next_handle world_init) /\
  (exists p, pSt d1 = Some p /\ st_id p = S (next_handle world_init) /\
             st_pending p = results demo_store "groups" []) /\
  try_again d1 = try_again grent_data_init /\
  entry d1 = entry grent_data_init /\
  events (snd out)
  = events world_init
      ++ [EvOpen (next_handle world_init);
          EvPrepare (Some (next_handle world_init)) (S (next_handle world_init))] /\
  lock_depth (snd out) = lock_depth world_init.
Proof.
  apply (setgrent_opens demo_store grent_data_init world_init "groups");
    reflexivity.
Defined.

Lemma getgrent_r_opens_itself_witness :
  let opened := _nss_sqlite_setgrent demo_store grent_data_init world_init in
  _nss_sqlite_getgrent_r demo_store spec_fill_group_sql
    (spec_fill_group demo_store) grent_data_init 4096 4096 0 world_init
  = _nss_sqlite_getgrent_r demo_store spec_fill_group_sql
      (spec_fill_group demo_store) (snd (fst opened)) 4096 4096 0 (snd opened).
Proof.
  apply (getgrent_r_opens_itself demo_store spec_fill_group_sql
           (spec_fill_group demo_store) grent_data_init 4096 4096 0 world_init).
  reflexivity.
Defined.

Lemma getgrent_r_retry_returns_witness :
  let m := spec_fill_group no_members_store (Some 0%nat) 4096 4096
             (entry pending_retry) 0 (snd (lock world_opened)) in
  let out := _nss_sqlite_getgrent_r no_members_store spec_fill_group_sql
               (spec_fill_group no_members_store) pending_retry 4096 4096 0
               world_opened in
  let d' := snd (fst out) in
  fst (fst out) = fst m /\
  try_again d' = false /\
  pDb d' = pDb pending_retry /\ pSt d' = pSt pending_retry /\
  entry d' = entry pending_retry /\
  events (snd out) = events (snd m) /\
  lock_depth (snd out) = pred (lock_depth (snd m)).
Proof.
  apply (getgrent_r_retry_returns no_members_store spec_fill_group_sql
           (spec_fill_group no_members_store) pending_retry 4096 4096 0
           world_opened 0%nat).
  - reflexivity.
  - reflexivity.
  - intros [H _]. vm_compute in H. discriminate H.
Defined.

Lemma getgrent_r_retry_round_trip_witness :
  let d := enumeration [Row staff_row; Row users_row; Done] [] in
  let q := advance (groups_stmt [Row staff_row; Row users_row; Done] [])
             (Row staff_row) [Row users_row; Done] in
  let e := spec_fill_group_sql (Some q) in
  let out1 := _nss_sqlite_getgrent_r demo_store spec_fill_group_sql
                (spec_fill_group demo_store) d 4096 10 0 world_opened in
  let m2 := spec_fill_group demo_store (Some 0%nat) 4096 4096 e 0
              (snd (lock (snd out1))) in
  let out2 := _nss_sqlite_getgrent_r demo_store spec_fill_group_sql
                (spec_fill_group demo_store) (snd (fst out1)) 4096 4096 0
                (snd out1) in
  (r_status (fst (fst out1)) = NSS_STATUS_TRYAGAIN /\
   r_errno (fst (fst out1)) = ERANGE /\
   try_again (snd (fst out1)) = true /\
   entry (snd (fst out1)) = e) /\
  (fst (fst out2) = fst m2 /\
   try_again (snd (fst out2)) = false /\
   pSt (snd (fst out2)) = Some q /\
   entry (snd (fst out2)) = e).
Proof.
  apply (getgrent_r_retry_round_trip demo_store spec_fill_group_sql
           (spec_fill_group demo_store)
           (enumeration [Row staff_row; Row users_row; Done] [])
           4096 10 0 4096 4096 0 world_opened 0%nat
           (groups_stmt [Row staff_row; Row users_row; Done] [])
           staff_row [Row users_row; Done]).
  - reflexivity.
  - reflexivity.
  - reflexivity.
  - reflexivity.
  - reflexivity.
  - reflexivity.
  - intros [H _]. vm_compute in H. discriminate H.
Defined.

Lemma getgrent_r_visits_rows_in_order_witness :
  Forall2
    (fun (q : stmt) (c : reply * grent_data) =>
       r_status (fst c) = NSS_STATUS_SUCCESS /\
       snd c = {| pDb := Some 0%nat; pSt := Some q; try_again := false;
                  entry := spec_fill_group_sql (Some q) |})
    (positions (groups_stmt [Row staff_row; Row users_row; Done] [])
       [staff_row; users_row] [Done])
    (fst (calls demo_store spec_fill_group_sql (spec_fill_group demo_store)
            (length [staff_row; users_row]) 4096 4096 0
            (enumeration [Row staff_row; Row users_row; Done] []) world_opened)).
Proof.
  apply (getgrent_r_visits_rows_in_order demo_store spec_fill_group_sql
           (spec_fill_group demo_store) [staff_row; users_row] [Done]
           (groups_stmt [Row staff_row; Row users_row; Done] [])
           (enumeration [Row staff_row; Row users_row; Done] [])
           4096 4096 0 world_opened 0%nat).
  - reflexivity.
  - reflexivity.
  - reflexivity.
  - reflexivity.
  - intros q w' Hin. destruct Hin as [Hq|[Hq|[]]]; subst q; cbn zeta;
      intros [H _]; vm_compute in H; discriminate H.
Defined.

Lemma getgrent_r_stale_retry_after_reopen_witness :
  let out1 := _nss_sqlite_endgrent pending_retry world_opened in
  let out2 := _nss_sqlite_setgrent demo_store (snd (fst out1)) (snd out1) in
  let m := spec_fill_group demo_store (Some (next_handle world_opened)) 4096 4096
             (entry pending_retry) 0 (snd (lock (snd out2))) in
  let out3 := _nss_sqlite_getgrent_r demo_store spec_fill_group_sql
                (spec_fill_group demo_store) (snd (fst out2)) 4096 4096 0
                (snd out2) in
  fst (fst out3) = fst m /\
  entry (snd (fst out3)) = entry pending_retry /\
  exists p, pSt (snd (fst out3)) = Some p /\
            st_pending p = results demo_store "groups" [] /\ st_row p = [].
Proof.
  apply (getgrent_r_stale_retry_after_reopen demo_store spec_fill_group_sql
           (spec_fill_group demo_store) pending_retry 4096 4096 0 world_opened
           "groups").
  - reflexivity.
  - reflexivity.
  - reflexivity.
  - reflexivity.
  - intros [H _]. vm_compute in H. discriminate H.
Defined.

Lemma endgrent_closes_again_after_failed_setgrent_witness :
  let s := without_query demo_store "setgrent" in
  let out1 := _nss_sqlite_setgrent s grent_data_init world_init in
  let out2 := _nss_sqlite_endgrent (snd (fst out1)) (snd out1) in
  fst (fst out1) = NSS_STATUS_UNAVAIL /\
  pDb (snd (fst out1)) = Some 0%nat /\
  events (snd out1) = events world_init ++ [EvOpen 0; EvClose 0] /\
  pDb (snd (fst out2)) = None /\
  events (snd out2) = events world_init ++ [EvOpen 0; EvClose 0; EvClose 0].
Proof.
  apply (endgrent_closes_again_after_failed_setgrent
           (without_query demo_store "setgrent") grent_data_init world_init);
    reflexivity.
Defined.

Lemma getgrent_r_end_of_set_closes_witness :
  let d := enumeration [Done] users_row in
  let out := _nss_sqlite_getgrent_r demo_store spec_fill_group_sql
               (spec_fill_group demo_store) d 4096 4096 0 world_opened in
  let d' := snd (fst out) in
  r_status (fst (fst out)) = NSS_STATUS_NOTFOUND /\
  pDb d' = None /\
  try_again d' = false /\
  entry d' = entry d /\
  events (snd out) = events world_opened ++ [EvFinalize 1; EvClose 0] /\
  lock_depth (snd out) = lock_depth world_opened /\
  (forall sql,
      open_rc demo_store = SQLITE_OK ->
      query_text demo_store "setgrent" = Some sql ->
      prepare_rc demo_store sql = SQLITE_OK ->
      let d2 := snd (fst (_nss_sqlite_setgrent demo_store d' (snd out))) in
      pDb d2 = Some (next_handle world_opened) /\
      pSt d2 = Some {| st_id := S (next_handle world_opened); st_sql := sql;
                       st_params := []; st_pending := results demo_store sql [];
                       st_row := [] |} /\
      try_again d2 = false).
Proof.
  apply (getgrent_r_end_of_set_closes demo_store spec_fill_group_sql
           (spec_fill_group demo_store) (enumeration [Done] users_row)
           4096 4096 0 world_opened 0%nat (groups_stmt [Done] users_row));
    reflexivity.
Defined.
